(** * META_PE: metadata extraction from Portable Executable buffers

    A shallow embedding of [laikaboss/modules/meta_pe.py] (Python 2) and the
    properties of its three entry points: [_run], [parseRSDS] and
    [parseRich].

    The module is glue around the [pefile] library.  What [pefile] returns
    for a buffer is an input of the model: the parsed image is a record
    whose fields hold the outcome of each library call the module makes,
    either a value or the exception the call raised. *)

From Stdlib Require Import ZArith Lia.
From Stdlib.Strings Require Import Byte Ascii.
From stdpp Require Import base option list strings gmap.

Local Open Scope string_scope.
Local Open Scope Z_scope.
Local Open Scope list_scope.

(** ** Exceptions and results *)

(** The exception classes the module names, and the builtin ones its own
    expressions can raise. *)
Inductive exn : Type :=
  | PEFormatError
  | QuitScanException
  | GlobalScanTimeoutError
  | GlobalModuleTimeoutError
  | AttributeError
  | KeyError
  | TypeError
  | IndexError
  | ValueError
  | StructError
  | OtherError (name : string).

(** The tuple of the [except (QuitScanException, GlobalScanTimeoutError,
    GlobalModuleTimeoutError)] clauses. *)
Definition is_cancellation (e : exn) : bool :=
  match e with
  | QuitScanException | GlobalScanTimeoutError | GlobalModuleTimeoutError => true
  | _ => false
  end.

Inductive result (A : Type) : Type :=
  | Ok (a : A)
  | Raise (e : exn).
Arguments Ok {A} a.
Arguments Raise {A} e.

#[export] Instance result_ret : MRet result := fun _ a => Ok a.
#[export] Instance result_bind : MBind result := fun _ _ f m =>
  match m with
  | Ok a => f a
  | Raise e => Raise e
  end.

Definition raised {A} (r : result A) : option exn :=
  match r with Ok _ => None | Raise e => Some e end.

Definition returned {A} (r : result A) : option A :=
  match r with Ok a => Some a | Raise _ => None end.

(** The loop [for x in xs: acc = body(acc, x)], stopping at the first
    exception. *)
Fixpoint for_each {A S} (body : S → A → result S) (xs : list A) (acc : S)
  : result S :=
  match xs with
  | [] => Ok acc
  | x :: xs' => acc' ← body acc x; for_each body xs' acc'
  end.

(** ** Byte strings *)

Abbreviation bytes := (list byte).

Definition bytes_of (s : string) : bytes := String.list_byte_of_string s.

(** [s[a:b]] and [s[a:]] for [0 <= a <= b]. *)
Definition slice (a b : nat) (s : bytes) : bytes := take (b - a) (drop a s).
Definition slice_from (a : nat) (s : bytes) : bytes := drop a s.

Definition hex_digit (n : N) : ascii :=
  match n with
  | 0 => "0" | 1 => "1" | 2 => "2" | 3 => "3" | 4 => "4" | 5 => "5"
  | 6 => "6" | 7 => "7" | 8 => "8" | 9 => "9" | 10 => "a" | 11 => "b"
  | 12 => "c" | 13 => "d" | 14 => "e" | _ => "f"
  end%N%char.

(** [binascii.hexlify]: two lowercase hexadecimal digits per byte. *)
Fixpoint hexlify (s : bytes) : string :=
  match s with
  | [] => ""
  | b :: s' =>
      let n := Byte.to_N b in
      String (hex_digit (n / 16)) (String (hex_digit (n mod 16)) (hexlify s'))
  end.

(** [struct.unpack('<L', s)[0]]: the buffer must hold exactly four bytes. *)
Definition unpack_le32 (s : bytes) : result Z :=
  match s with
  | [b0; b1; b2; b3] =>
      Ok (Z.of_N (Byte.to_N b0)
          + Z.shiftl (Z.of_N (Byte.to_N b1)) 8
          + Z.shiftl (Z.of_N (Byte.to_N b2)) 16
          + Z.shiftl (Z.of_N (Byte.to_N b3)) 24)
  | _ => Raise StructError
  end.

Definition byte_eqb (a b : byte) : bool := Byte.eqb a b.

Fixpoint starts_with (p s : bytes) : bool :=
  match p, s with
  | [], _ => true
  | _ :: _, [] => false
  | a :: p', b :: s' => byte_eqb a b && starts_with p' s'
  end.

(** ** The regular expression ['RSDS.{24,1024}\.pdb']

    Compiled without [re.DOTALL], so [.] is any byte but the line feed.  The
    matcher follows the backtracking semantics of [re]: the bounded repeat is
    greedy, so at a given start it first takes as many bytes as it may and
    gives them back one at a time until [.pdb] follows. *)
Module Rsds_re.

Definition sig : bytes := bytes_of "RSDS".
Definition suffix : bytes := bytes_of ".pdb".
Definition lo : nat := 24.
Definition hi : nat := 1024.

Definition dot (b : byte) : bool := negb (byte_eqb b "010"%byte).

(** How many bytes [.{0,cap}] can take at the head of [s]. *)
Fixpoint dot_run (cap : nat) (s : bytes) : nat :=
  match cap, s with
  | S cap', b :: s' => if dot b then S (dot_run cap' s') else O
  | _, _ => O
  end.

(** Backtracking from [lo + extra] taken bytes down to [lo]. *)
Fixpoint give_back (rest : bytes) (extra : nat) : option nat :=
  if starts_with suffix (drop (lo + extra)%nat rest) then Some (lo + extra)%nat
  else match extra with
       | O => None
       | S extra' => give_back rest extra'
       end.

(** Length of the match that starts exactly at the head of [s]. *)
Definition match_here (s : bytes) : option nat :=
  if starts_with sig s then
    let rest := drop 4 s in
    let most := dot_run hi rest in
    if (lo <=? most)%nat then
      k ← give_back rest (most - lo)%nat; Some (4 + k + 4)%nat
    else None
  else None.

(** [findall]: matches left to right, not overlapping; [skip] counts the
    bytes of the previous match still to step over. *)
Fixpoint findall_from (skip : nat) (s : bytes) : list bytes :=
  match s with
  | [] => []
  | _ :: s' =>
      match skip with
      | S n => findall_from n s'
      | O =>
          match match_here s with
          | Some len => take len s :: findall_from (len - 1) s'
          | None => findall_from 0 s'
          end
      end
  end.

Definition findall (s : bytes) : list bytes := findall_from 0 s.

End Rsds_re.

(** ** parseRSDS *)

Record rsds_info := { guid : string; age : Z; pdb : bytes }.

(** The dictionary [result]: [None] is the empty dictionary, [Some] the one
    holding the three keys. *)
Definition format_guid (m : bytes) : string :=
  hexlify (slice 4 8 m) +:+ "-" +:+ hexlify (slice 8 10 m) +:+ "-"
  +:+ hexlify (slice 10 12 m) +:+ "-" +:+ hexlify (slice 12 20 m).

Definition parseRSDS (buffer : bytes) : result (option rsds_info) :=
  let x := Rsds_re.findall buffer in
  match last x with
  | Some ((_ :: _) as m) =>
      a ← unpack_le32 (slice 20 24 m);
      Ok (Some {| guid := format_guid m; age := a; pdb := slice_from 24 m |})
  | _ => Ok None
  end.

(** ** parseRich *)

(** [pe.RICH_HEADER]: the decoded words after the header marker, and the
    checksum. *)
Record RichHeader := { values : list Z; checksum : Z }.

Record rich_entry := { rich_Id : Z; rich_Version : Z; rich_Count : Z }.

Record rich_info := { Rich_Header_Values : list rich_entry; Checksum : Z }.

Definition getitem {A} (l : list A) (i : nat) : result A :=
  match l !! i with
  | Some v => Ok v
  | None => Raise IndexError
  end.

(** [range(0, n, 2)] *)
Definition range_by_2 (n : nat) : list nat :=
  (λ i, 2 * i)%nat <$> seq 0 (Nat.div2 (n + 1)).

Definition rich_body (vals : list Z) (data : list rich_entry) (x : nat)
  : result (list rich_entry) :=
  w ← getitem vals x;
  let value := Z.shiftr w 16 in
  let version := Z.land w 65535 in
  count ← getitem vals (x + 1);
  Ok (data ++ [{| rich_Id := value; rich_Version := version;
                  rich_Count := count |}])%list.

Definition parseRich (rich_header : option RichHeader) : result (option rich_info) :=
  match rich_header with
  | Some rh =>
      data ← for_each (rich_body (values rh)) (range_by_2 (length (values rh))) [];
      Ok (Some {| Rich_Header_Values := data; Checksum := checksum rh |})
  | None => Ok None
  end.

(** ** Formatting of integers *)

Definition hex_digit_upper (n : N) : ascii :=
  match n with
  | 10 => "A" | 11 => "B" | 12 => "C" | 13 => "D" | 14 => "E" | 15 => "F"
  | _ => hex_digit n
  end%N%char.

Fixpoint hex_digits (digit : N → ascii) (fuel : nat) (n : N) (acc : string)
  : string :=
  match fuel with
  | O => acc
  | S fuel' =>
      if (n =? 0)%N then acc
      else hex_digits digit fuel' (n / 16)%N (String (digit (n mod 16)%N) acc)
  end.

Definition hex_of_N (digit : N → ascii) (n : N) : string :=
  if (n =? 0)%N then "0" else hex_digits digit (N.size_nat n) n "".

Fixpoint zeros (n : nat) : string :=
  match n with O => "" | S n' => String "0" (zeros n') end.

(** ['0x%08X' % v]: [None] is not a number; the sign counts in the width. *)
Definition format_0x08X (v : option Z) : result string :=
  match v with
  | None => Raise TypeError
  | Some z =>
      let digits := hex_of_N hex_digit_upper (Z.abs_N z) in
      let sign := if (z <? 0)%Z then "-" else "" in
      let pad := zeros (8 - String.length sign - String.length digits) in
      Ok ("0x" +:+ sign +:+ pad +:+ digits)
  end.

(** [hex(z)] of Python 2 on a 64-bit build: a [long] prints a trailing [L]. *)
Definition sys_maxint : Z := 2 ^ 63 - 1.

Definition py_hex (z : Z) : string :=
  (if (z <? 0)%Z then "-" else "") +:+ "0x" +:+ hex_of_N hex_digit (Z.abs_N z)
  +:+ (if ((sys_maxint <? z) || (z <? - sys_maxint - 1))%Z then "L" else "").

(** [s.strip('\0')] *)
Definition is_nul (c : ascii) : bool := Ascii.eqb c Ascii.zero.

Fixpoint lstrip_nul (s : string) : string :=
  match s with
  | String c s' => if is_nul c then lstrip_nul s' else s
  | EmptyString => EmptyString
  end.

Fixpoint rstrip_nul (s : string) : string :=
  match s with
  | String c s' =>
      match rstrip_nul s' with
      | EmptyString => if is_nul c then EmptyString else String c EmptyString
      | r => String c r
      end
  | EmptyString => EmptyString
  end.

Definition strip_nul (s : string) : string := rstrip_nul (lstrip_nul s).

(** ** What pefile hands to the module *)

(** One entry of [dump_dict['PE Sections']].  A field is [None] when the key
    is missing, which the module reads through [.get]. *)
Record pyfloat := { mantissa : Z; exponent : Z }.

Record section_dump := {
  sec_Name : option string;
  sec_PointerToRawData : option Z;
  sec_VirtualAddress : option Z;
  sec_Misc_VirtualSize : option Z;
  sec_SizeOfRawData : option Z;
  sec_MD5 : option string;
  sec_SHA1 : option string;
  sec_SHA256 : option string;
  sec_Entropy : option pyfloat;
  sec_Flags : option (list string);
  sec_Structure : option string;
}.

(** One symbol dictionary of [dump_dict['Imported symbols']]; [None] is a
    missing key or the value [None]. *)
Record import_dump := {
  imp_DLL : option string;
  imp_Ordinal : option Z;
  imp_Name : option string;
}.

Record DumpDict := {
  PE_Sections : option (list section_dump);
  Imported_symbols : option (list (list import_dump));
  Flags : option (list string);
  DllCharacteristics : option (list string);
}.

Record FileHeader := {
  NumberOfSections : Z;
  TimeDateStamp : Z;
  Machine : Z;
}.

Record OptionalHeader := {
  Magic : Z;
  Subsystem : Z;
  SizeOfStackReserve : Z;
  SizeOfStackCommit : Z;
  SizeOfHeapReserve : Z;
  SizeOfHeapCommit : Z;
  AddressOfEntryPoint : Z;
  ImageBase : Z;
}.

Record ExportData := { exp_name : option string }.

Record ResourceDataEntry := {
  OffsetToData : Z;
  Size : Z;
  struct_name : string;
}.

Record ResourceData := {
  data_struct : ResourceDataEntry;
  data_lang : Z;
  data_sublang : Z;
}.

(** An entry of a resource directory carries a [directory] or a [data]
    attribute; reading the one it lacks raises [AttributeError]. *)
#[local] Unset Elimination Schemes.
Inductive ResourceEntry : Type :=
  | mkResourceEntry (id : option Z)
                    (directory : option (list ResourceEntry))
                    (data : option ResourceData).
#[local] Set Elimination Schemes.

Definition entry_id (e : ResourceEntry) : option Z :=
  match e with mkResourceEntry i _ _ => i end.

Definition entry_directory (e : ResourceEntry) : result (list ResourceEntry) :=
  match e with
  | mkResourceEntry _ (Some entries) _ => Ok entries
  | mkResourceEntry _ None _ => Raise AttributeError
  end.

Definition entry_data (e : ResourceEntry) : result ResourceData :=
  match e with
  | mkResourceEntry _ _ (Some d) => Ok d
  | mkResourceEntry _ _ None => Raise AttributeError
  end.

(** The object [pefile.PE(data=...)] returns.  A call or an optional
    attribute is recorded by its outcome: the value, or the exception raised
    while it was evaluated ([AttributeError] for a directory the image does
    not have, a scan-control exception when the scan is stopped there). *)
Record PE := {
  dump_dict : result DumpDict;
  get_data : option Z → option Z → result bytes;
  FILE_HEADER : FileHeader;
  OPTIONAL_HEADER : OptionalHeader;
  DIRECTORY_ENTRY_EXPORT : result (list ExportData);
  get_imphash : result string;
  DIRECTORY_ENTRY_RESOURCE : result (list ResourceEntry);
  RICH_HEADER : option RichHeader;
}.

(** The libraries and the platform: pefile's constructor and tables,
    [hashlib], and [datetime.fromtimestamp(...).isoformat()], which depends
    on the local time zone. *)
Record Host := {
  pefile_PE : bytes → result PE;
  MACHINE_TYPE : Z → option string;
  SUBSYSTEM_TYPE : Z → option string;
  RESOURCE_TYPE : option Z → option string;
  LANG : Z → option string;
  get_sublang_name_for_lang : Z → Z → string;
  fromtimestamp_isoformat : Z → result string;
  sha256_hexdigest : bytes → string;
  sha1_hexdigest : bytes → string;
  md5_hexdigest : bytes → string;
}.

Record ScanObject := { buffer : bytes; objectHash : string }.

(** ** The module's outputs *)

(** [ModuleObject(buffer=..., externalVars=ExternalVars(filename=...))] *)
Record ModuleObject := { mo_buffer : bytes; mo_filename : string }.

Record sec_info := {
  Virtual_Address : string;
  Virtual_Size : option Z;
  Raw_Size : option Z;
  MD5 : string;
  SHA1 : string;
  SHA256 : string;
  Entropy : option pyfloat;
  Section_Characteristics : list string;
  Structure : string;
}.

(** The values of the dictionary [sections]: a record per section name, and
    the count stored under the key ['Total'] of the same dictionary. *)
Inductive section_value : Type :=
  | SecInfo (i : sec_info)
  | SecTotal (n : Z).

(** An element of an import list: the ordinal or the name. *)
Inductive import_ref : Type :=
  | ByOrdinal (ordinal : Z)
  | ByName (name : string).

Record resource_info := {
  res_Type : string;
  res_Id : option Z;
  res_Name : string;
  res_Offset : Z;
  res_Size : Z;
  res_SHA256 : string;
  res_SHA1 : string;
  res_MD5 : string;
  res_Language : string;
  res_Sub_Language : string;
}.

Inductive metaval : Type :=
  | MSections (d : gmap string section_value)
  | MExports (l : list (option string))
  | MImports (d : gmap string (list import_ref))
  | MStr (s : string)
  | MOptStr (s : option string)
  | MStrList (l : list string)
  | MInt (z : Z)
  | MMachine (Id : Z) (Type_ : option string)
  | MResource (r : resource_info)
  | MRsds (r : option rsds_info)
  | MRich (r : option rich_info).

(** ** The extraction monad

    [_run] mutates two things that outlive an exception: the metadata of the
    scan object, through [addMetadata], and its list [moduleResult].  The
    store records the calls of [addMetadata] in order, as pairs of key and
    value (the module name is the same in all of them). *)

Record store := {
  metadata : list (string * metaval);
  moduleResult : list ModuleObject;
}.

Definition empty_store : store := {| metadata := []; moduleResult := [] |}.

Definition M (A : Type) : Type := store → store * result A.

#[export] Instance M_ret : MRet M := λ _ a st, (st, Ok a).
#[export] Instance M_bind : MBind M := λ _ _ f m st,
  match m st with
  | (st', Ok a) => f a st'
  | (st', Raise e) => (st', Raise e)
  end.

Definition lift {A} (r : result A) : M A := λ st, (st, r).

Definition raise {A} (e : exn) : M A := lift (Raise e).

Definition addMetadata (key : string) (value : metaval) : M unit := λ st,
  ({| metadata := metadata st ++ [(key, value)];
      moduleResult := moduleResult st |}, Ok tt).

Definition moduleResult_append (child : ModuleObject) : M unit := λ st,
  ({| metadata := metadata st;
      moduleResult := moduleResult st ++ [child] |}, Ok tt).

(** [try: body  except: handler] *)
Definition try_except {A} (body : M A) (handler : exn → M A) : M A := λ st,
  match body st with
  | (st', Raise e) => handler e st'
  | (st', Ok a) => (st', Ok a)
  end.

Fixpoint for_eachM {A S} (body : S → A → M S) (xs : list A) (acc : S) : M S :=
  match xs with
  | [] => mret acc
  | x :: xs' => acc' ← body acc x; for_eachM body xs' acc'
  end.

(** ** IMAGE_MAGIC_LOOKUP *)

(** The keys a lookup in the table is made with: an integer or a string. *)
Inductive pykey : Type :=
  | KInt (z : Z)
  | KStr (s : string).

#[export] Instance pykey_eq_dec : EqDecision pykey.
Proof. solve_decision. Defined.

Definition IMAGE_MAGIC_LOOKUP : list (pykey * string) :=
  [ (KInt 0x10b, "32_BIT");
    (KInt 0x20b, "64_BIT");
    (KInt 0x107, "ROM_IMAGE") ].

(** [d.get(key, default)] *)
Fixpoint dict_get (d : list (pykey * string)) (key : pykey) (default : string)
  : string :=
  match d with
  | [] => default
  | (k, v) :: d' => if decide (k = key) then v else dict_get d' key default
  end.

(** ** _run, block by block *)

(** Truth value of what [imp.get(key)] returns. *)
Definition truthy_str (v : option string) : option string :=
  match v with
  | Some s => if decide (s = "") then None else Some s
  | None => None
  end.

Definition truthy_int (v : option Z) : option Z :=
  match v with
  | Some z => if decide (z = 0) then None else Some z
  | None => None
  end.

(** [imports.setdefault(dll, [])] and [imports[dll].append(x)]; the append
    always follows the [setdefault], so the key is there. *)
Definition setdefault (dll : string) (imports : gmap string (list import_ref))
  : gmap string (list import_ref) :=
  match imports !! dll with
  | Some _ => imports
  | None => <[dll := []]> imports
  end.

Definition dict_append (dll : string) (x : import_ref)
    (imports : gmap string (list import_ref)) : gmap string (list import_ref) :=
  alter (λ l, l ++ [x])%list dll imports.

Definition import_body (imports : gmap string (list import_ref))
    (imp : import_dump) : gmap string (list import_ref) :=
  match truthy_str (imp_DLL imp) with
  | Some dll =>
      let imports := setdefault dll imports in
      let imports :=
        match truthy_int (imp_Ordinal imp) with
        | Some ordinal => dict_append dll (ByOrdinal ordinal) imports
        | None => imports
        end in
      match truthy_str (imp_Name imp) with
      | Some name => dict_append dll (ByName name) imports
      | None => imports
      end
  | None => imports
  end.

Definition import_loop (symbols : list (list import_dump))
  : gmap string (list import_ref) :=
  foldl (λ imports imp_symbol, foldl import_body imports imp_symbol) ∅ symbols.

Section Blocks.

Variable host : Host.
Variable scanObject : ScanObject.
Variable pe : PE.
Variable dump : DumpDict.

(** Lines 48-70: the section table. *)
Definition section_name (section : section_dump) : string :=
  strip_nul (default "" (sec_Name section)).

(** The dictionary [secInfo]; the format operator raises on [None]. *)
Definition make_secInfo (section : section_dump) : result sec_info :=
  let virtAddress := sec_VirtualAddress section in
  let virtSize := sec_Misc_VirtualSize section in
  let size := sec_SizeOfRawData section in
  va ← format_0x08X virtAddress;
  Ok {| Virtual_Address := va;
        Virtual_Size := virtSize;
        Raw_Size := size;
        MD5 := default "" (sec_MD5 section);
        SHA1 := default "" (sec_SHA1 section);
        SHA256 := default "" (sec_SHA256 section);
        Entropy := sec_Entropy section;
        Section_Characteristics := default [] (sec_Flags section);
        Structure := default "" (sec_Structure section) |}.

Definition section_body (sections : gmap string section_value)
    (section : section_dump) : M (gmap string section_value) :=
  let secName := section_name section in
  let ptr := sec_PointerToRawData section in
  let size := sec_SizeOfRawData section in
  secData ← lift (get_data pe ptr size);
  secInfo ← lift (make_secInfo section);
  (if bool_decide (MD5 secInfo ≠ objectHash scanObject)
   then moduleResult_append {| mo_buffer := secData; mo_filename := secName |}
   else mret tt);;
  mret (<[secName := SecInfo secInfo]> sections).

Definition meta_sections : M unit :=
  sections ← for_eachM section_body (default [] (PE_Sections dump)) ∅;
  let sections :=
    <["Total" := SecTotal (NumberOfSections (FILE_HEADER pe))]> sections in
  addMetadata "Sections" (MSections sections).

(** Lines 72-81. *)
Definition meta_exports : M unit :=
  try_except
    (symbols ← lift (DIRECTORY_ENTRY_EXPORT pe);
     exports ← for_eachM (λ exports exp, mret (exports ++ [exp_name exp])%list)
                         symbols [];
     addMetadata "Exports" (MExports exports))
    (λ e, if is_cancellation e then raise e else mret tt).

(** Lines 83-87: the handler is a bare [except:]. *)
Definition meta_imphash : M unit :=
  try_except
    (imphash ← lift (get_imphash pe);
     addMetadata "Imphash" (MStr imphash))
    (λ _, mret tt).

(** Lines 89-101: [dump_dict['Imported symbols']] is a subscript, not a
    [.get]. *)
Definition meta_imports : M unit :=
  symbols ← lift (match Imported_symbols dump with
                  | Some symbols => Ok symbols
                  | None => Raise KeyError
                  end);
  addMetadata "Imports" (MImports (import_loop symbols)).

(** Lines 103-111. *)
Definition meta_image_characteristics : M unit :=
  let imgChars := default [] (Flags dump) in
  addMetadata "Image Characteristics" (MStrList imgChars).

Definition meta_date : M unit :=
  isoDate ← lift (fromtimestamp_isoformat host (TimeDateStamp (FILE_HEADER pe)));
  addMetadata "Date" (MStr isoDate);;
  addMetadata "Timestamp" (MInt (TimeDateStamp (FILE_HEADER pe))).

(** Lines 113-119. *)
Definition meta_machine : M unit :=
  let machine := Machine (FILE_HEADER pe) in
  addMetadata "Machine Type" (MMachine machine (MACHINE_TYPE host machine)).

(** Lines 122-125; [imageMagic] is the local variable of [_run]. *)
Definition meta_image_magic (imageMagic : pykey) : M unit :=
  addMetadata "Image Magic"
              (MStr (dict_get IMAGE_MAGIC_LOOKUP imageMagic "Unknown")).

(** Lines 127-133. *)
Definition meta_dll_characteristics : M unit :=
  let dllChars := default [] (DllCharacteristics dump) in
  addMetadata "DLL Characteristics" (MStrList dllChars).

Definition meta_subsystem : M unit :=
  let subsystem := Subsystem (OPTIONAL_HEADER pe) in
  let subName := SUBSYSTEM_TYPE host subsystem in
  addMetadata "Subsystem" (MOptStr subName).

(** Lines 137-170: the three levels of the resource tree. *)
Definition resource_leaf (res_type : string) (e_entry : ResourceEntry)
  : M unit :=
  d ← lift (entry_data e_entry);
  let sublang := get_sublang_name_for_lang host (data_lang d) (data_sublang d) in
  let offset := OffsetToData (data_struct d) in
  let size := Size (data_struct d) in
  raw_data ← lift (get_data pe (Some offset) (Some size));
  let language := default "Unknown" (LANG host (data_lang d)) in
  let data :=
    {| res_Type := res_type;
       res_Id := entry_id e_entry;
       res_Name := struct_name (data_struct d);
       res_Offset := offset;
       res_Size := size;
       res_SHA256 := sha256_hexdigest host raw_data;
       res_SHA1 := sha1_hexdigest host raw_data;
       res_MD5 := md5_hexdigest host raw_data;
       res_Language := language;
       res_Sub_Language := sublang |} in
  addMetadata "Resources" (MResource data).

Definition resource_entry (res_type : string) (entry : ResourceEntry)
  : M unit :=
  e_entries ← lift (entry_directory entry);
  for_eachM (λ _ e_entry, resource_leaf res_type e_entry) e_entries tt.

Definition resource_body (resource : ResourceEntry) : M unit :=
  let res_type := default "Unknown" (RESOURCE_TYPE host (entry_id resource)) in
  entries ← lift (entry_directory resource);
  for_eachM (λ _ entry, resource_entry res_type entry) entries tt.

Definition meta_resources : M unit :=
  try_except
    (resources ← lift (DIRECTORY_ENTRY_RESOURCE pe);
     for_eachM (λ _ resource, resource_body resource) resources tt)
    (λ e, if is_cancellation e then raise e else mret tt).

(** Lines 172-195. *)
Definition meta_sizes : M unit :=
  let oh := OPTIONAL_HEADER pe in
  addMetadata "Stack Reserve Size" (MInt (SizeOfStackReserve oh));;
  addMetadata "Stack Commit Size" (MInt (SizeOfStackCommit oh));;
  addMetadata "Heap Reserve Size" (MInt (SizeOfHeapReserve oh));;
  addMetadata "Heap Commit Size" (MInt (SizeOfHeapCommit oh));;
  addMetadata "EntryPoint" (MStr (py_hex (AddressOfEntryPoint oh)));;
  addMetadata "ImageBase" (MStr (py_hex (ImageBase oh))).

(** Lines 197-201. *)
Definition meta_rsds : M unit :=
  rsds ← lift (parseRSDS (buffer scanObject));
  addMetadata "RSDS" (MRsds rsds).

Definition meta_rich : M unit :=
  rich ← lift (parseRich (RICH_HEADER pe));
  addMetadata "Rich Header" (MRich rich).

(** Everything between [dump_dict = pe.dump_dict()] and the [except] of
    the outer [try]. *)
Definition extract (imageMagic : pykey) : M unit :=
  meta_sections;;
  meta_exports;;
  meta_imphash;;
  meta_imports;;
  meta_image_characteristics;;
  meta_date;;
  meta_machine;;
  meta_image_magic imageMagic;;
  meta_dll_characteristics;;
  meta_subsystem;;
  meta_resources;;
  meta_sizes;;
  meta_rsds;;
  meta_rich.

(** The same sequence as a list of blocks. *)
Definition blocks (imageMagic : pykey) : list (M unit) :=
  [ meta_sections; meta_exports; meta_imphash; meta_imports;
    meta_image_characteristics; meta_date; meta_machine;
    meta_image_magic imageMagic; meta_dll_characteristics; meta_subsystem;
    meta_resources; meta_sizes; meta_rsds; meta_rich ].

End Blocks.

Fixpoint run_blocks (bs : list (M unit)) : M unit :=
  match bs with
  | [] => mret tt
  | [b] => b
  | b :: bs' => b;; run_blocks bs'
  end.

(** Lines 37-205. *)
Definition run_body (host : Host) (scanObject : ScanObject) : M unit :=
  let imageMagic := KStr "" in
  try_except
    (pe ← lift (pefile_PE host (buffer scanObject));
     dump ← lift (dump_dict pe);
     extract host scanObject pe dump imageMagic)
    (λ e, match e with
          | PEFormatError => mret tt
          | _ => raise e
          end).

(** The outcome of a call: the metadata added to the scan object, and the
    returned list or the exception that left [_run]. *)
Definition _run (host : Host) (scanObject : ScanObject)
  : list (string * metaval) * result (list ModuleObject) :=
  match run_body host scanObject empty_store with
  | (st, Ok _) => (metadata st, Ok (moduleResult st))
  | (st, Raise e) => (metadata st, Raise e)
  end.

(** ** Notions used to state the properties *)

(** The store [st] followed by the additions [d]. *)
Definition st_app (st d : store) : store :=
  {| metadata := metadata st ++ metadata d;
     moduleResult := moduleResult st ++ moduleResult d |}.

(** A computation is a writer when it never reads the store: what it adds
    and how it ends are those of its run from the empty store. *)
Definition writer {A} (m : M A) : Prop :=
  ∀ st, m st = (st_app st (m empty_store).1, (m empty_store).2).

(** Every pair added to the metadata satisfies [P] and every child buffer
    added to [moduleResult] satisfies [Q], however the computation ends. *)
Definition emits {A} (P : string * metaval → Prop) (Q : ModuleObject → Prop)
    (m : M A) : Prop :=
  ∀ st, ∃ d, (m st).1 = st_app st d
             ∧ Forall P (metadata d) ∧ Forall Q (moduleResult d).

(** The metadata added under keys other than [key]. *)
Definition others (key : string) (md : list (string * metaval))
  : list (string * metaval) :=
  filter (λ kv, kv.1 ≠ key) md.

Definition populated (key : string) (md : list (string * metaval)) : Prop :=
  key ∈ md.*1.

(** The image [pe] with another outcome for one of its guarded parts, and
    the host whose constructor yields a given outcome. *)
Definition with_exports (r : result (list ExportData)) (pe : PE) : PE :=
  {| dump_dict := dump_dict pe; get_data := get_data pe;
     FILE_HEADER := FILE_HEADER pe; OPTIONAL_HEADER := OPTIONAL_HEADER pe;
     DIRECTORY_ENTRY_EXPORT := r;
     get_imphash := get_imphash pe;
     DIRECTORY_ENTRY_RESOURCE := DIRECTORY_ENTRY_RESOURCE pe;
     RICH_HEADER := RICH_HEADER pe |}.

Definition with_imphash (r : result string) (pe : PE) : PE :=
  {| dump_dict := dump_dict pe; get_data := get_data pe;
     FILE_HEADER := FILE_HEADER pe; OPTIONAL_HEADER := OPTIONAL_HEADER pe;
     DIRECTORY_ENTRY_EXPORT := DIRECTORY_ENTRY_EXPORT pe;
     get_imphash := r;
     DIRECTORY_ENTRY_RESOURCE := DIRECTORY_ENTRY_RESOURCE pe;
     RICH_HEADER := RICH_HEADER pe |}.

Definition with_resources (r : result (list ResourceEntry)) (pe : PE) : PE :=
  {| dump_dict := dump_dict pe; get_data := get_data pe;
     FILE_HEADER := FILE_HEADER pe; OPTIONAL_HEADER := OPTIONAL_HEADER pe;
     DIRECTORY_ENTRY_EXPORT := DIRECTORY_ENTRY_EXPORT pe;
     get_imphash := get_imphash pe;
     DIRECTORY_ENTRY_RESOURCE := r;
     RICH_HEADER := RICH_HEADER pe |}.

Definition parsing (parsed : result PE) (host : Host) : Host :=
  {| pefile_PE := λ _, parsed;
     MACHINE_TYPE := MACHINE_TYPE host;
     SUBSYSTEM_TYPE := SUBSYSTEM_TYPE host;
     RESOURCE_TYPE := RESOURCE_TYPE host;
     LANG := LANG host;
     get_sublang_name_for_lang := get_sublang_name_for_lang host;
     fromtimestamp_isoformat := fromtimestamp_isoformat host;
     sha256_hexdigest := sha256_hexdigest host;
     sha1_hexdigest := sha1_hexdigest host;
     md5_hexdigest := md5_hexdigest host |}.

(** [n] pairs of words laid out as [pe.RICH_HEADER.values] holds them, and
    the triple a pair stands for. *)
Definition words_of_pairs (ps : list (Z * Z)) : list Z :=
  ps ≫= λ p, [p.1; p.2].

Definition triple_of_pair (p : Z * Z) : rich_entry :=
  {| rich_Id := Z.shiftr p.1 16; rich_Version := Z.land p.1 0xffff;
     rich_Count := p.2 |}.

(** A descriptor carries the name [dll], and what it then appends. *)
Definition carries (dll : string) (imp : import_dump) : Prop :=
  truthy_str (imp_DLL imp) = Some dll.

#[export] Instance carries_dec dll imp : Decision (carries dll imp).
Proof. unfold carries. apply _. Defined.

Definition entries_of (imp : import_dump) : list import_ref :=
  match truthy_int (imp_Ordinal imp) with
  | Some ordinal => [ByOrdinal ordinal]
  | None => []
  end ++
  match truthy_str (imp_Name imp) with
  | Some name => [ByName name]
  | None => []
  end.

(** The hash the section loop compares, whether a section is handed back,
    and the child buffer made from a section. *)
Definition section_md5 (section : section_dump) : string :=
  default "" (sec_MD5 section).

Definition emitted (scanObject : ScanObject) (section : section_dump) : Prop :=
  section_md5 section ≠ objectHash scanObject.

#[export] Instance emitted_dec scanObject section :
  Decision (emitted scanObject section).
Proof. unfold emitted. apply _. Defined.

Definition is_child_of (pe : PE) (section : section_dump)
    (child : ModuleObject) : Prop :=
  get_data pe (sec_PointerToRawData section) (sec_SizeOfRawData section)
  = Ok (mo_buffer child)
  ∧ mo_filename child = section_name section.

(** What one turn of the section loop does to the dictionary [sections],
    the child buffers left aside. *)
Definition section_entry (pe : PE) (sections : gmap string section_value)
    (section : section_dump) : result (gmap string section_value) :=
  _ ← get_data pe (sec_PointerToRawData section) (sec_SizeOfRawData section);
  secInfo ← make_secInfo section;
  Ok (<[section_name section := SecInfo secInfo]> sections).

(** The sections the loop gets through: those before the first one at which
    [pe.get_data] or the formatting of the record raises. *)
Fixpoint sections_done (pe : PE) (secs : list section_dump)
  : list section_dump :=
  match secs with
  | [] => []
  | section :: secs' =>
      match section_entry pe ∅ section with
      | Ok _ => section :: sections_done pe secs'
      | Raise _ => []
      end
  end.

(** The outcome of a guarded part is not a scan-control exception. *)
Definition not_cancelled {A} (r : result A) : Prop :=
  match r with
  | Ok _ => True
  | Raise e => is_cancellation e = false
  end.

(** The body of the [try] of lines 137-164, without its handlers: the walk
    of the resource directory. *)
Definition resource_walk (host : Host) (pe : PE) : M unit :=
  resources ← lift (DIRECTORY_ENTRY_RESOURCE pe);
  for_eachM (λ _ resource, resource_body host pe resource) resources tt.

(** Two runs agree on what [_run] returns or raises and on all the metadata
    stored under keys other than [key]. *)
Definition same_but (key : string)
    (run1 run2 : list (string * metaval) * result (list ModuleObject)) : Prop :=
  others key run1.1 = others key run2.1 ∧ run1.2 = run2.2.

(** The [except pefile.PEFormatError] clause of the outer [try], on the
    outcome of its body. *)
Definition outer_except (r : result unit) : result unit :=
  match r with
  | Raise PEFormatError => Ok tt
  | _ => r
  end.

(** How [_run] ends when the exception [e] leaves the extraction with the
    store [st]: the metadata stored so far stays, a format error is caught
    by the outer handler and the children found so far are returned, any
    other exception leaves [_run]. *)
Definition ends_with (st : store) (e : exn)
  : list (string * metaval) * result (list ModuleObject) :=
  (metadata st,
   match e with
   | PEFormatError => Ok (moduleResult st)
   | _ => Raise e
   end).

(** The extraction gets to its block number [k] (counted from 0, in the
    order of [blocks]) with the store [st]: every block before it has
    returned. *)
Definition reaches (host : Host) (scanObject : ScanObject) (pe : PE)
    (dump : DumpDict) (k : nat) (st : store) : Prop :=
  run_blocks (take k (blocks host scanObject pe dump (KStr ""))) empty_store
  = (st, Ok tt).

(** The unsigned integer four bytes spell, least significant first. *)
Definition le32 (b0 b1 b2 b3 : byte) : Z :=
  Z.of_N (Byte.to_N b0) + 256 * Z.of_N (Byte.to_N b1)
  + 65536 * Z.of_N (Byte.to_N b2) + 16777216 * Z.of_N (Byte.to_N b3).

(** A string the pattern describes: the signature, 24 to 1024 bytes none of
    which is a line feed, and [.pdb]. *)
Definition rsds_shaped (m : bytes) : Prop :=
  ∃ body, m = Rsds_re.sig ++ body ++ Rsds_re.suffix
          ∧ (Rsds_re.lo ≤ length body ≤ Rsds_re.hi)%nat
          ∧ Forall (λ b, Rsds_re.dot b = true) body.

(** ** A small image, for concrete runs *)

Module Sample.

Definition nul : string := String Ascii.zero EmptyString.

Definition image : bytes := bytes_of "MZ:header:code:resources".

Definition file_hash : string := "9e107d9d372bb6826bd81d3542a419d6".

Definition scan : ScanObject :=
  {| buffer := image; objectHash := file_hash |}.

(** A section with its own hash, and one whose hash is the file's. *)
Definition text : section_dump :=
  {| sec_Name := Some (".text" +:+ nul +:+ nul +:+ nul);
     sec_PointerToRawData := Some 10;
     sec_VirtualAddress := Some 4096;
     sec_Misc_VirtualSize := Some 4;
     sec_SizeOfRawData := Some 4;
     sec_MD5 := Some "e4d909c290d0fb1ca068ffaddf22cbd0";
     sec_SHA1 := Some "sha1-of-text";
     sec_SHA256 := Some "sha256-of-text";
     sec_Entropy := Some {| mantissa := 2; exponent := 0 |};
     sec_Flags := Some ["IMAGE_SCN_CNT_CODE"; "IMAGE_SCN_MEM_EXECUTE"];
     sec_Structure := Some "IMAGE_SECTION_HEADER" |}.

Definition whole : section_dump :=
  {| sec_Name := Some ("UPX0" +:+ nul +:+ nul +:+ nul +:+ nul);
     sec_PointerToRawData := Some 0;
     sec_VirtualAddress := Some 8192;
     sec_Misc_VirtualSize := Some 24;
     sec_SizeOfRawData := Some 24;
     sec_MD5 := Some file_hash;
     sec_SHA1 := Some "sha1-of-file";
     sec_SHA256 := Some "sha256-of-file";
     sec_Entropy := Some {| mantissa := 3; exponent := 0 |};
     sec_Flags := Some ["IMAGE_SCN_MEM_READ"];
     sec_Structure := Some "IMAGE_SECTION_HEADER" |}.

Definition struct_entry : import_dump :=
  {| imp_DLL := None; imp_Ordinal := None; imp_Name := None |}.

Definition by_name : import_dump :=
  {| imp_DLL := Some "KERNEL32.DLL"; imp_Ordinal := None;
     imp_Name := Some "CreateFileA" |}.

Definition by_ordinal : import_dump :=
  {| imp_DLL := Some "WS2_32.dll"; imp_Ordinal := Some 115;
     imp_Name := None |}.

Definition by_ordinal_0 : import_dump :=
  {| imp_DLL := Some "WS2_32.dll"; imp_Ordinal := Some 0;
     imp_Name := None |}.

(** A section whose raw data lies past the end of the file. *)
Definition beyond : section_dump :=
  {| sec_Name := Some (".data" +:+ nul +:+ nul +:+ nul);
     sec_PointerToRawData := Some 0x7fff0000;
     sec_VirtualAddress := Some 12288;
     sec_Misc_VirtualSize := Some 512;
     sec_SizeOfRawData := Some 512;
     sec_MD5 := Some "d41d8cd98f00b204e9800998ecf8427e";
     sec_SHA1 := Some "sha1-of-nothing";
     sec_SHA256 := Some "sha256-of-nothing";
     sec_Entropy := Some {| mantissa := 0; exponent := 0 |};
     sec_Flags := Some ["IMAGE_SCN_MEM_WRITE"];
     sec_Structure := Some "IMAGE_SECTION_HEADER" |}.

Definition dump : DumpDict :=
  {| PE_Sections := Some [text; whole];
     Imported_symbols :=
       Some [[struct_entry; by_name]; [struct_entry; by_ordinal]];
     Flags := Some ["IMAGE_FILE_EXECUTABLE_IMAGE"; "IMAGE_FILE_32BIT_MACHINE"];
     DllCharacteristics := Some ["IMAGE_DLLCHARACTERISTICS_NX_COMPAT"] |}.

(** [pe.get_data] on an offset that no section maps: the bytes of the file
    from there, or a format error past the end of the file. *)
Definition read (ptr size : option Z) : result bytes :=
  match ptr, size with
  | Some p, Some n =>
      if (Z.of_nat (length image) <=? p)%Z then Raise PEFormatError
      else Ok (slice (Z.to_nat p) (Z.to_nat (p + n)) image)
  | _, _ => Raise TypeError
  end.

Definition version_leaf : ResourceEntry :=
  mkResourceEntry (Some 1033) None
    (Some {| data_struct := {| OffsetToData := 15; Size := 9;
                               struct_name := "IMAGE_RESOURCE_DATA_ENTRY" |};
             data_lang := 9; data_sublang := 1 |}).

Definition resources : list ResourceEntry :=
  [ mkResourceEntry (Some 16)
      (Some [ mkResourceEntry (Some 1) (Some [version_leaf]) None ]) None ].

Definition pe : PE :=
  {| dump_dict := Ok dump;
     get_data := read;
     FILE_HEADER :=
       {| NumberOfSections := 2; TimeDateStamp := 1420070400;
          Machine := 0x14c |};
     OPTIONAL_HEADER :=
       {| Magic := 0x10b; Subsystem := 2;
          SizeOfStackReserve := 0x100000; SizeOfStackCommit := 0x1000;
          SizeOfHeapReserve := 0x100000; SizeOfHeapCommit := 0x1000;
          AddressOfEntryPoint := 0x1000; ImageBase := 0x400000 |};
     DIRECTORY_ENTRY_EXPORT := Ok [ {| exp_name := Some "DllMain" |} ];
     get_imphash := Ok "f34d5f2d4577ed6d9ceec516c1f5a744";
     DIRECTORY_ENTRY_RESOURCE := Ok resources;
     RICH_HEADER := Some {| values := [0x00010002; 3]; checksum := 99 |} |}.

(** The same image with a section table that ends in [beyond]. *)
Definition truncated : PE :=
  {| dump_dict :=
       Ok {| PE_Sections := Some [text; beyond];
             Imported_symbols := Imported_symbols dump;
             Flags := Flags dump;
             DllCharacteristics := DllCharacteristics dump |};
     get_data := read;
     FILE_HEADER := FILE_HEADER pe;
     OPTIONAL_HEADER := OPTIONAL_HEADER pe;
     DIRECTORY_ENTRY_EXPORT := DIRECTORY_ENTRY_EXPORT pe;
     get_imphash := get_imphash pe;
     DIRECTORY_ENTRY_RESOURCE := DIRECTORY_ENTRY_RESOURCE pe;
     RICH_HEADER := RICH_HEADER pe |}.

Definition host : Host :=
  {| pefile_PE := λ data,
       if starts_with (bytes_of "MZ") data then Ok pe else Raise PEFormatError;
     MACHINE_TYPE := λ m,
       if decide (m = 0x14c) then Some "IMAGE_FILE_MACHINE_I386" else None;
     SUBSYSTEM_TYPE := λ s,
       if decide (s = 2) then Some "IMAGE_SUBSYSTEM_WINDOWS_GUI" else None;
     RESOURCE_TYPE := λ t,
       if decide (t = Some 16) then Some "RT_VERSION" else None;
     LANG := λ l, if decide (l = 9) then Some "LANG_ENGLISH" else None;
     get_sublang_name_for_lang := λ _ _, "SUBLANG_ENGLISH_US";
     fromtimestamp_isoformat := λ _, Ok "2015-01-01T00:00:00";
     sha256_hexdigest := λ d, "sha256:" +:+ hexlify d;
     sha1_hexdigest := λ d, "sha1:" +:+ hexlify d;
     md5_hexdigest := λ d, "md5:" +:+ hexlify d |}.

(** The debug record of the docstring of [parseRSDS], with the age left
    open: signature, GUID, age, path, terminator. *)
Definition guid_bytes : bytes :=
  [xb4; xbc; x76; x74; xd2; x9f; x6a; x49; xb5; x6c; x74; x7c; x1d; x41; xbb; xa5].

Definition rsds_record (age_bytes : bytes) : bytes :=
  bytes_of "RSDS" ++ guid_bytes ++ age_bytes ++ bytes_of "D:\zcg.pdb" ++ [x00].

(** The image with a scan-control exception raised in [pe.get_imphash()]. *)
Definition timed_out : PE :=
  with_imphash (Raise GlobalModuleTimeoutError) pe.

End Sample.

(** ** Notions used for the further properties *)

Definition is_PEFormatError (e : exn) : bool :=
  match e with PEFormatError => true | _ => false end.

(** What [_run] does with an exception [e] that reaches the outer [try]
    before anything was stored or appended. *)
Definition abandoned (e : exn)
  : list (string * metaval) * result (list ModuleObject) :=
  ([], if is_PEFormatError e then Ok [] else Raise e).

(** The keys in the order of the calls of [addMetadata] in the source,
    'Resources' (stored once per resource) left out. *)
Definition key_order : list string :=
  [ "Sections"; "Exports"; "Imphash"; "Imports"; "Image Characteristics";
    "Date"; "Timestamp"; "Machine Type"; "Image Magic";
    "DLL Characteristics"; "Subsystem"; "Stack Reserve Size";
    "Stack Commit Size"; "Heap Reserve Size"; "Heap Commit Size";
    "EntryPoint"; "ImageBase"; "RSDS"; "Rich Header" ].

(** The keys a computation stores, 'Resources' apart, are some of [ks], in
    the order of [ks]. *)
Definition stores_within {A} (ks : list string) (m : M A) : Prop :=
  ∀ st, ∃ d, (m st).1 = st_app st d
             ∧ sublist (others "Resources" (metadata d)).*1 ks.

(** The keys a block stores when run from the empty store, 'Resources'
    apart, and whether it returns. *)
Definition keys_of (b : M unit) : list string :=
  (others "Resources" (metadata (b empty_store).1)).*1.

Definition returns (b : M unit) : Prop := (b empty_store).2 = Ok tt.

(** The digests of a resource record are those of the bytes [pe.get_data]
    gives for the record's offset and size. *)
Definition hashes_its_bytes (host : Host) (pe : PE) (r : resource_info)
  : Prop :=
  ∃ raw_data,
    get_data pe (Some (res_Offset r)) (Some (res_Size r)) = Ok raw_data
    ∧ res_SHA256 r = sha256_hexdigest host raw_data
    ∧ res_SHA1 r = sha1_hexdigest host raw_data
    ∧ res_MD5 r = md5_hexdigest host raw_data.

(** A run of [n] NUL characters. *)
Fixpoint nuls (n : nat) : string :=
  match n with
  | O => EmptyString
  | S n' => String Ascii.zero (nuls n')
  end.

Definition first_ascii (s : string) : option ascii :=
  match s with
  | String c _ => Some c
  | EmptyString => None
  end.

Fixpoint last_ascii (s : string) : option ascii :=
  match s with
  | EmptyString => None
  | String c EmptyString => Some c
  | String _ s' => last_ascii s'
  end.

(** ** More images, for concrete runs *)

Module Cases.

(** A statically linked image: one section, no import directory, no export
    directory, no resources, no Rich header. *)
Definition static_dump : DumpDict :=
  {| PE_Sections := Some [Sample.text];
     Imported_symbols := None;
     Flags := Some ["IMAGE_FILE_EXECUTABLE_IMAGE"];
     DllCharacteristics := None |}.

Definition static : PE :=
  {| dump_dict := Ok static_dump;
     get_data := Sample.read;
     FILE_HEADER := FILE_HEADER Sample.pe;
     OPTIONAL_HEADER := OPTIONAL_HEADER Sample.pe;
     DIRECTORY_ENTRY_EXPORT := Raise AttributeError;
     get_imphash := Ok "";
     DIRECTORY_ENTRY_RESOURCE := Raise AttributeError;
     RICH_HEADER := None |}.

(** Three export symbols, the second with an ordinal only. *)
Definition symbols : list ExportData :=
  [ {| exp_name := Some "DllMain" |}; {| exp_name := None |};
    {| exp_name := Some "DllRegisterServer" |} ].

Definition exporting : PE := with_exports (Ok symbols) Sample.pe.

(** A second section named [.text], without padding in its name, and an
    image whose table holds both. *)
Definition text_again : section_dump :=
  {| sec_Name := Some ".text";
     sec_PointerToRawData := Some 15;
     sec_VirtualAddress := Some 16384;
     sec_Misc_VirtualSize := Some 9;
     sec_SizeOfRawData := Some 9;
     sec_MD5 := Some "0cc175b9c0f1b6a831c399e269772661";
     sec_SHA1 := Some "sha1-of-resources";
     sec_SHA256 := Some "sha256-of-resources";
     sec_Entropy := Some {| mantissa := 1; exponent := 0 |};
     sec_Flags := Some ["IMAGE_SCN_MEM_READ"];
     sec_Structure := Some "IMAGE_SECTION_HEADER" |}.

Definition twins_dump : DumpDict :=
  {| PE_Sections := Some [Sample.text; text_again];
     Imported_symbols := Imported_symbols Sample.dump;
     Flags := Flags Sample.dump;
     DllCharacteristics := DllCharacteristics Sample.dump |}.

Definition twins : PE :=
  {| dump_dict := Ok twins_dump;
     get_data := Sample.read;
     FILE_HEADER := FILE_HEADER Sample.pe;
     OPTIONAL_HEADER := OPTIONAL_HEADER Sample.pe;
     DIRECTORY_ENTRY_EXPORT := DIRECTORY_ENTRY_EXPORT Sample.pe;
     get_imphash := get_imphash Sample.pe;
     DIRECTORY_ENTRY_RESOURCE := DIRECTORY_ENTRY_RESOURCE Sample.pe;
     RICH_HEADER := RICH_HEADER Sample.pe |}.

(** A resource directory whose second entry is a leaf where a directory is
    expected. *)
Definition bad_entry : ResourceEntry :=
  mkResourceEntry (Some 3) None
    (Some {| data_struct := {| OffsetToData := 0; Size := 2;
                               struct_name := "IMAGE_RESOURCE_DATA_ENTRY" |};
             data_lang := 0; data_sublang := 0 |}).

Definition half_walked : PE :=
  with_resources (Ok (Sample.resources ++ bad_entry :: Sample.resources))
                 Sample.pe.

(** A platform whose [datetime.fromtimestamp] rejects the time stamp. *)
Definition no_date : Host :=
  {| pefile_PE := pefile_PE Sample.host;
     MACHINE_TYPE := MACHINE_TYPE Sample.host;
     SUBSYSTEM_TYPE := SUBSYSTEM_TYPE Sample.host;
     RESOURCE_TYPE := RESOURCE_TYPE Sample.host;
     LANG := LANG Sample.host;
     get_sublang_name_for_lang := get_sublang_name_for_lang Sample.host;
     fromtimestamp_isoformat := λ _, Raise ValueError;
     sha256_hexdigest := sha256_hexdigest Sample.host;
     sha1_hexdigest := sha1_hexdigest Sample.host;
     md5_hexdigest := md5_hexdigest Sample.host |}.

(** An image whose Rich header holds an odd number of words. *)
Definition odd_rich : PE :=
  {| dump_dict := dump_dict Sample.pe;
     get_data := Sample.read;
     FILE_HEADER := FILE_HEADER Sample.pe;
     OPTIONAL_HEADER := OPTIONAL_HEADER Sample.pe;
     DIRECTORY_ENTRY_EXPORT := DIRECTORY_ENTRY_EXPORT Sample.pe;
     get_imphash := get_imphash Sample.pe;
     DIRECTORY_ENTRY_RESOURCE := DIRECTORY_ENTRY_RESOURCE Sample.pe;
     RICH_HEADER := Some {| values := [0x00010002; 3; 0x00020003];
                            checksum := 99 |} |}.

End Cases.

(** * Reasoning about the extraction monad *)

Lemma bind_eval {A B} (m : M A) (f : A → M B) (st : store) :
  (m ≫= f) st = match m st with
                | (st', Ok a) => f a st'
                | (st', Raise e) => (st', Raise e)
                end.
Proof. reflexivity. Qed.

Lemma st_app_empty_l d : st_app empty_store d = d.
Proof. by destruct d. Qed.

Lemma st_app_empty_r st : st_app st empty_store = st.
Proof. destruct st. unfold st_app. simpl. by rewrite !app_nil_r. Qed.

Lemma st_app_assoc a b c : st_app (st_app a b) c = st_app a (st_app b c).
Proof. unfold st_app. simpl. by rewrite !app_assoc. Qed.

Lemma writer_ret {A} (a : A) : writer (mret a : M A).
Proof. intros st. cbn. by rewrite st_app_empty_r. Qed.

Lemma writer_lift {A} (r : result A) : writer (lift r).
Proof. intros st. cbn. by rewrite st_app_empty_r. Qed.

Lemma writer_raise {A} (e : exn) : writer (raise e : M A).
Proof. apply writer_lift. Qed.

Lemma writer_addMetadata key value : writer (addMetadata key value).
Proof. intros st. unfold addMetadata, st_app. cbn. by rewrite app_nil_r. Qed.

Lemma writer_moduleResult_append child : writer (moduleResult_append child).
Proof. intros st. unfold moduleResult_append, st_app. cbn. by rewrite app_nil_r. Qed.

Lemma writer_bind {A B} (m : M A) (f : A → M B) :
  writer m → (∀ a, writer (f a)) → writer (m ≫= f).
Proof.
  intros Hm Hf st. rewrite !bind_eval, (Hm st).
  destruct (m empty_store) as [d [a|e]]; cbn; [|done].
  rewrite (Hf a (st_app st d)), (Hf a d). cbn.
  by rewrite st_app_assoc.
Qed.

Lemma writer_try_except {A} (body : M A) (handler : exn → M A) :
  writer body → (∀ e, writer (handler e)) → writer (try_except body handler).
Proof.
  intros Hb Hh st. unfold try_except. rewrite (Hb st).
  destruct (body empty_store) as [d [a|e]]; cbn; [done|].
  rewrite (Hh e (st_app st d)), (Hh e d). cbn.
  by rewrite st_app_assoc.
Qed.

Lemma writer_for_eachM {A S} (body : S → A → M S) (xs : list A) (acc : S) :
  (∀ acc x, writer (body acc x)) → writer (for_eachM body xs acc).
Proof.
  intros Hb. revert acc.
  induction xs as [|x xs IH]; intros acc; cbn [for_eachM].
  - apply writer_ret.
  - apply writer_bind; auto.
Qed.

Lemma writer_if {A} (b : bool) (m1 m2 : M A) :
  writer m1 → writer m2 → writer (if b then m1 else m2).
Proof. by destruct b. Qed.

Create HintDb writer discriminated.
#[export] Hint Resolve writer_ret writer_lift writer_raise writer_addMetadata
  writer_moduleResult_append writer_if : writer.
#[export] Hint Extern 2 (writer (_ ≫= _)) =>
  apply writer_bind; [|intros ?] : writer.
#[export] Hint Extern 2 (writer (try_except _ _)) =>
  apply writer_try_except; [|intros ?] : writer.
#[export] Hint Extern 2 (writer (for_eachM _ _ _)) =>
  apply writer_for_eachM; intros ? ? : writer.
#[export] Hint Extern 5 (writer (match ?e with _ => _ end)) =>
  destruct e : writer.

Ltac writer := cbv beta zeta; eauto 40 with writer.

Section BlocksAreWriters.

Variable host : Host.
Variable scanObject : ScanObject.
Variable pe : PE.
Variable dump : DumpDict.

Lemma writer_meta_sections : writer (meta_sections scanObject pe dump).
Proof. unfold meta_sections, section_body. writer. Qed.

Lemma writer_meta_exports : writer (meta_exports pe).
Proof. unfold meta_exports. writer. Qed.

Lemma writer_meta_imphash : writer (meta_imphash pe).
Proof. unfold meta_imphash. writer. Qed.

Lemma writer_meta_imports : writer (meta_imports dump).
Proof. unfold meta_imports. writer. Qed.

Lemma writer_meta_date : writer (meta_date host pe).
Proof. unfold meta_date. writer. Qed.

Lemma writer_meta_resources : writer (meta_resources host pe).
Proof.
  unfold meta_resources, resource_body, resource_entry, resource_leaf.
  writer.
Qed.

Lemma writer_meta_sizes : writer (meta_sizes pe).
Proof. unfold meta_sizes. writer. Qed.

Lemma writer_meta_rsds : writer (meta_rsds scanObject).
Proof. unfold meta_rsds. writer. Qed.

Lemma writer_meta_rich : writer (meta_rich pe).
Proof. unfold meta_rich. writer. Qed.

End BlocksAreWriters.

#[export] Hint Resolve writer_meta_sections writer_meta_exports
  writer_meta_imphash writer_meta_imports writer_meta_date
  writer_meta_resources writer_meta_sizes writer_meta_rsds writer_meta_rich
  : writer.

(** ** What a computation emits *)

Lemma emits_weaken {A} (P P' : string * metaval → Prop)
    (Q Q' : ModuleObject → Prop) (m : M A) :
  (∀ kv, P kv → P' kv) → (∀ c, Q c → Q' c) → emits P Q m → emits P' Q' m.
Proof.
  intros HP HQ Hm st. destruct (Hm st) as (d & -> & H1 & H2).
  exists d. split_and!; [done| |]; eapply Forall_impl; eauto.
Qed.

Section Emits.

Variable P : string * metaval → Prop.
Variable Q : ModuleObject → Prop.

Lemma emits_nothing {A} (m : M A) : (∀ st, (m st).1 = st) → emits P Q m.
Proof.
  intros H st. exists empty_store. rewrite H, st_app_empty_r.
  by split_and!; constructor.
Qed.

Lemma emits_ret {A} (a : A) : emits P Q (mret a : M A).
Proof. by apply emits_nothing. Qed.

Lemma emits_lift {A} (r : result A) : emits P Q (lift r).
Proof. by apply emits_nothing. Qed.

Lemma emits_raise {A} (e : exn) : emits P Q (raise e : M A).
Proof. by apply emits_nothing. Qed.

Lemma emits_addMetadata key value :
  P (key, value) → emits P Q (addMetadata key value).
Proof.
  intros H st. exists {| metadata := [(key, value)]; moduleResult := [] |}.
  unfold addMetadata, st_app. cbn. rewrite app_nil_r.
  split_and!; [done| |]; by repeat constructor.
Qed.

Lemma emits_moduleResult_append child :
  Q child → emits P Q (moduleResult_append child).
Proof.
  intros H st. exists {| metadata := []; moduleResult := [child] |}.
  unfold moduleResult_append, st_app. cbn. rewrite app_nil_r.
  split_and!; [done| |]; by repeat constructor.
Qed.

Lemma emits_bind {A B} (m : M A) (f : A → M B) :
  emits P Q m → (∀ a, emits P Q (f a)) → emits P Q (m ≫= f).
Proof.
  intros Hm Hf st. rewrite bind_eval.
  destruct (Hm st) as (d & Hd & H1 & H2).
  destruct (m st) as [st1 [a|e]]; cbn in Hd; subst st1.
  - destruct (Hf a (st_app st d)) as (d' & -> & H1' & H2').
    exists (st_app d d'). rewrite st_app_assoc.
    split_and!; [done| |]; cbn; by apply Forall_app.
  - by exists d.
Qed.

Lemma emits_try_except {A} (body : M A) (handler : exn → M A) :
  emits P Q body → (∀ e, emits P Q (handler e)) →
  emits P Q (try_except body handler).
Proof.
  intros Hb Hh st. unfold try_except.
  destruct (Hb st) as (d & Hd & H1 & H2).
  destruct (body st) as [st1 [a|e]]; cbn in Hd; subst st1.
  - by exists d.
  - destruct (Hh e (st_app st d)) as (d' & -> & H1' & H2').
    exists (st_app d d'). rewrite st_app_assoc.
    split_and!; [done| |]; cbn; by apply Forall_app.
Qed.

Lemma emits_for_eachM {A S} (body : S → A → M S) (xs : list A) (acc : S) :
  (∀ acc x, x ∈ xs → emits P Q (body acc x)) →
  emits P Q (for_eachM body xs acc).
Proof.
  revert acc. induction xs as [|x xs IH]; intros acc Hb; cbn [for_eachM].
  - apply emits_ret.
  - apply emits_bind.
    + apply Hb. by left.
    + intros acc'. apply IH. intros ? ? ?. apply Hb. by right.
Qed.

Lemma emits_if {A} (b : bool) (m1 m2 : M A) :
  (b = true → emits P Q m1) → (b = false → emits P Q m2) →
  emits P Q (if b then m1 else m2).
Proof. destruct b; auto. Qed.

Lemma emits_run_blocks (bs : list (M unit)) :
  Forall (emits P Q) bs → emits P Q (run_blocks bs).
Proof.
  induction 1 as [|b bs Hb Hbs IH]; [apply emits_ret|].
  destruct bs as [|b' bs]; [done|].
  change (run_blocks (b :: b' :: bs)) with (b;; run_blocks (b' :: bs)).
  apply emits_bind; auto.
Qed.

End Emits.

(** The run of [m] keeps what the store held and ends as the writer says. *)
Lemma emits_metadata_prefix {A} P Q (m : M A) st :
  emits P Q m → ∃ d, metadata (m st).1 = metadata st ++ d ∧ Forall P d.
Proof. intros H. destruct (H st) as (d & -> & H1 & _). by exists (metadata d). Qed.

Lemma emits_no_child {A} P (m : M A) st :
  emits P (λ _, False) m → moduleResult (m st).1 = moduleResult st.
Proof.
  intros H. destruct (H st) as (d & -> & _ & H2). cbn.
  destruct (moduleResult d) as [|c ?]; [by rewrite app_nil_r|].
  by inversion H2.
Qed.

Create HintDb emits discriminated.
#[export] Hint Resolve emits_ret emits_lift emits_raise : emits.
#[export] Hint Extern 2 (emits _ _ (_ ≫= _)) =>
  apply emits_bind; [|intros ?] : emits.
#[export] Hint Extern 2 (emits _ _ (try_except _ _)) =>
  apply emits_try_except; [|intros ?] : emits.
#[export] Hint Extern 2 (emits _ _ (for_eachM _ _ _)) =>
  apply emits_for_eachM; intros ? ? ? : emits.
#[export] Hint Extern 2 (emits _ _ (addMetadata _ _)) =>
  apply emits_addMetadata; cbn; try done : emits.
#[export] Hint Extern 5 (emits _ _ (match ?e with _ => _ end)) =>
  destruct e : emits.

Ltac emits := cbv beta zeta; eauto 60 with emits.

(** ** Sequences of blocks *)

Lemma run_blocks_cons (b : M unit) (bs : list (M unit)) (st : store) :
  run_blocks (b :: bs) st = (b;; run_blocks bs) st.
Proof.
  destruct bs as [|b' bs]; [|done].
  cbn [run_blocks]. rewrite bind_eval.
  by destruct (b st) as [st' [[]|e]].
Qed.

Lemma run_blocks_app (bs1 bs2 : list (M unit)) (st : store) :
  run_blocks (bs1 ++ bs2) st = (run_blocks bs1;; run_blocks bs2) st.
Proof.
  revert st. induction bs1 as [|b bs1 IH]; intros st; [done|].
  rewrite <- app_comm_cons, run_blocks_cons, !bind_eval, run_blocks_cons, bind_eval.
  destruct (b st) as [st' [[]|e]]; [|done].
  by rewrite IH, bind_eval.
Qed.

Lemma writer_run_blocks (bs : list (M unit)) :
  Forall writer bs → writer (run_blocks bs).
Proof.
  induction 1 as [|b bs Hb Hbs IH]; [apply writer_ret|].
  destruct bs as [|b' bs]; [done|].
  change (run_blocks (b :: b' :: bs)) with (b;; run_blocks (b' :: bs)).
  apply writer_bind; auto.
Qed.

Lemma extract_blocks host scanObject pe dump imageMagic :
  extract host scanObject pe dump imageMagic
  = run_blocks (blocks host scanObject pe dump imageMagic).
Proof. reflexivity. Qed.

Lemma writer_blocks host scanObject pe dump imageMagic :
  Forall writer (blocks host scanObject pe dump imageMagic).
Proof.
  unfold blocks. repeat constructor; auto with writer.
  all: unfold meta_image_characteristics, meta_machine, meta_image_magic,
         meta_dll_characteristics, meta_subsystem; writer.
Qed.

(** * The Rich header *)

Lemma words_of_pairs_length ps :
  length (words_of_pairs ps) = (2 * length ps)%nat.
Proof.
  unfold words_of_pairs. induction ps as [|p ps IH]; [done|].
  cbn. rewrite IH. lia.
Qed.

Lemma words_of_pairs_lookup ps k p :
  ps !! k = Some p →
  words_of_pairs ps !! (2 * k)%nat = Some p.1
  ∧ words_of_pairs ps !! (2 * k + 1)%nat = Some p.2.
Proof.
  revert k. induction ps as [|q ps IH]; intros k Hk; [done|].
  destruct k as [|k]; cbn in Hk.
  - by simplify_eq.
  - destruct (IH k Hk) as [H1 H2].
    replace (2 * S k)%nat with (S (S (2 * k))) by lia.
    replace (S (S (2 * k)) + 1)%nat with (S (S (2 * k + 1))) by lia.
    done.
Qed.

Lemma range_by_2_even n : range_by_2 (2 * n) = (λ i, 2 * i)%nat <$> seq 0 n.
Proof.
  unfold range_by_2. do 2 f_equal.
  replace (2 * n + 1)%nat with (S (2 * n)) by lia.
  rewrite Nat.div2_succ_double. done.
Qed.

Lemma rich_body_pair ps k p acc :
  ps !! k = Some p →
  rich_body (words_of_pairs ps) acc (2 * k) = Ok (acc ++ [triple_of_pair p]).
Proof.
  intros Hp. destruct (words_of_pairs_lookup _ _ _ Hp) as [H1 H2].
  unfold rich_body, getitem. rewrite H1. cbn [mbind result_bind].
  by rewrite H2.
Qed.

(** The loop over the indices [2k, 2(k+1), ...] appends one triple per pair. *)
Lemma rich_loop_pairs ps n k acc :
  (k + n ≤ length ps)%nat →
  for_each (rich_body (words_of_pairs ps)) ((λ i, 2 * i)%nat <$> seq k n) acc
  = Ok (acc ++ (triple_of_pair <$> take n (drop k ps))).
Proof.
  revert k acc. induction n as [|n IH]; intros k acc Hn.
  - cbn. by rewrite app_nil_r.
  - destruct (lookup_lt_is_Some_2 ps k) as [p Hp]; [lia|].
    cbn [seq fmap list_fmap for_each].
    rewrite (rich_body_pair _ _ _ _ Hp). cbn.
    rewrite IH by lia.
    rewrite (drop_S _ _ _ Hp). cbn. by rewrite <- app_assoc.
Qed.

(** [C4], as amended.  For a Rich header of N pairs of words [parseRich]
    yields N triples, one per pair and in order: the identifier is the first
    word shifted right by 16, the version is its low 16 bits, the count is
    the second word; the checksum is handed on unchanged.  Without a Rich
    header the result is the empty dictionary. *)
Theorem parseRich_one_triple_per_pair :
  (∀ ps ck,
     parseRich (Some {| values := words_of_pairs ps; checksum := ck |})
     = Ok (Some {| Rich_Header_Values := triple_of_pair <$> ps;
                   Checksum := ck |})
     ∧ length (triple_of_pair <$> ps) = length ps)
  ∧ parseRich None = Ok None.
Proof.
  split; [|done]. intros ps ck. split; [|by rewrite length_fmap].
  unfold parseRich. cbn [values checksum].
  rewrite words_of_pairs_length, range_by_2_even.
  rewrite rich_loop_pairs by (cbn; lia).
  cbn. by rewrite firstn_all.
Qed.

(** [C4], the claim as stated, fails: one pair already gives one triple,
    where the claim counts N - 1 = 0 of them. *)
Lemma parseRich_first_pair_is_not_skipped :
  parseRich (Some {| values := words_of_pairs [(0x00010002, 3)];
                     checksum := 99 |})
  = Ok (Some {| Rich_Header_Values :=
                  [{| rich_Id := 1; rich_Version := 2; rich_Count := 3 |}];
                Checksum := 99 |})
  ∧ length [{| rich_Id := 1; rich_Version := 2; rich_Count := 3 |}]
    ≠ (length [(0x00010002, 3)%Z] - 1)%nat.
Proof. split; [reflexivity|discriminate]. Qed.

(** * Imports *)

Lemma setdefault_lookup dll imports dll' :
  setdefault dll imports !! dll'
  = if decide (dll = dll') then Some (default [] (imports !! dll))
    else imports !! dll'.
Proof.
  unfold setdefault. case_decide as Heq; [subst dll'|].
  - destruct (imports !! dll) eqn:E; [done|]. by rewrite lookup_insert_eq.
  - destruct (imports !! dll); [done|]. by rewrite lookup_insert_ne.
Qed.

Lemma dict_append_lookup dll x imports dll' :
  dict_append dll x imports !! dll'
  = if decide (dll = dll') then (λ l, l ++ [x]) <$> imports !! dll
    else imports !! dll'.
Proof.
  unfold dict_append. case_decide as Heq; [subst dll'|].
  - by rewrite lookup_alter_eq.
  - by rewrite lookup_alter_ne.
Qed.

(** One descriptor: the list of the DLL it carries grows by [entries_of],
    every other list is left alone. *)
Lemma import_body_lookup imports imp dll :
  import_body imports imp !! dll
  = if decide (carries dll imp)
    then Some (default [] (imports !! dll) ++ entries_of imp)
    else imports !! dll.
Proof.
  destruct (decide (carries dll imp)) as [Hc|Hc];
    unfold carries in Hc; unfold import_body, entries_of.
  - rewrite Hc.
    destruct (truthy_int (imp_Ordinal imp)) as [o|],
             (truthy_str (imp_Name imp)) as [n|];
      rewrite ?dict_append_lookup, ?setdefault_lookup;
      repeat case_decide; simplify_eq; cbn;
      rewrite ?app_nil_r, <- ?app_assoc; done.
  - destruct (truthy_str (imp_DLL imp)) as [d|]; [|done].
    destruct (truthy_int (imp_Ordinal imp)) as [o|],
             (truthy_str (imp_Name imp)) as [n|];
      rewrite ?dict_append_lookup, ?setdefault_lookup;
      repeat case_decide; simplify_eq; done.
Qed.

Lemma import_fold_lookup ds imports dll :
  foldl import_body imports ds !! dll
  = match filter (carries dll) ds with
    | [] => imports !! dll
    | ds' => Some (default [] (imports !! dll) ++ (ds' ≫= entries_of))
    end.
Proof.
  revert imports. induction ds as [|d ds IH]; intros imports; [done|].
  cbn [foldl]. rewrite IH, import_body_lookup, filter_cons.
  destruct (decide (carries dll d)) as [Hc|Hc]; [|done].
  cbn. destruct (filter (carries dll) ds) as [|d' ds']; cbn.
  - by rewrite !app_nil_r.
  - by rewrite <- !app_assoc.
Qed.

Lemma import_loop_concat symbols :
  import_loop symbols = foldl import_body ∅ (concat symbols).
Proof.
  unfold import_loop. generalize (∅ : gmap string (list import_ref)).
  induction symbols as [|s symbols IH]; intros m; [done|].
  cbn. by rewrite foldl_app, IH.
Qed.

(** [C7], as amended.  The list built for a DLL is what the descriptors
    carrying that DLL append, in descriptor order; a descriptor with only an
    ordinal other than 0 appends that ordinal and no name, a descriptor with
    only a name other than the empty string appends that name and no
    ordinal. *)
Theorem imports_keep_descriptor_order symbols dll :
  filter (carries dll) (concat symbols) ≠ [] →
  import_loop symbols !! dll
  = Some (filter (carries dll) (concat symbols) ≫= entries_of)
  ∧ (∀ imp o, imp_Ordinal imp = Some o → o ≠ 0 → imp_Name imp = None →
              entries_of imp = [ByOrdinal o])
  ∧ (∀ imp n, imp_Name imp = Some n → n ≠ "" → imp_Ordinal imp = None →
              entries_of imp = [ByName n]).
Proof.
  intros Hne. split_and!.
  - rewrite import_loop_concat, import_fold_lookup.
    destruct (filter (carries dll) (concat symbols)); [done|].
    by rewrite lookup_empty.
  - intros imp o Ho Hnz Hn. unfold entries_of, truthy_int, truthy_str.
    rewrite Ho, Hn. by case_decide.
  - intros imp n Hn Hnz Ho. unfold entries_of, truthy_int, truthy_str.
    rewrite Ho, Hn. by case_decide.
Qed.

Lemma imports_keep_descriptor_order_witness :
  import_loop [[Sample.struct_entry; Sample.by_name; Sample.by_ordinal];
               [Sample.struct_entry; Sample.by_ordinal_0; Sample.by_ordinal]]
    !! "WS2_32.dll"
  = Some [ByOrdinal 115; ByOrdinal 115].
Proof.
  refine (proj1 (imports_keep_descriptor_order
                   [[Sample.struct_entry; Sample.by_name; Sample.by_ordinal];
                    [Sample.struct_entry; Sample.by_ordinal_0;
                     Sample.by_ordinal]]
                   "WS2_32.dll" _)).
  vm_compute. discriminate.
Defined.

(** [C7], the claim as stated, fails: a descriptor whose only component is
    the ordinal 0 appends nothing, where the claim has it append that
    ordinal. *)
Lemma import_by_ordinal_0_appends_nothing :
  imp_DLL Sample.by_ordinal_0 = Some "WS2_32.dll"
  ∧ imp_Ordinal Sample.by_ordinal_0 = Some 0
  ∧ imp_Name Sample.by_ordinal_0 = None
  ∧ import_loop [[Sample.by_ordinal_0]] !! "WS2_32.dll" = Some []
  ∧ import_loop [[Sample.by_ordinal_0]] !! "WS2_32.dll" ≠ Some [ByOrdinal 0].
Proof. split_and!; [reflexivity..|vm_compute; discriminate]. Qed.

(** [C9].  What a descriptor appends is decided by truth value: an ordinal 0
    and an empty name are left out of the DLL's list, and a descriptor whose
    only component is the ordinal 0 appends nothing at all. *)
Theorem falsy_import_components_are_dropped imports imp dll :
  carries dll imp →
  import_body imports imp !! dll
  = Some (default [] (imports !! dll) ++ entries_of imp)
  ∧ (imp_Ordinal imp = Some 0 → ∀ o, ByOrdinal o ∉ entries_of imp)
  ∧ (imp_Name imp = Some "" → ∀ n, ByName n ∉ entries_of imp)
  ∧ (imp_Ordinal imp = Some 0 → imp_Name imp = None →
     import_body imports imp !! dll = Some (default [] (imports !! dll))).
Proof.
  intros Hc. rewrite import_body_lookup, decide_True by done.
  unfold entries_of. split_and!; [done|..].
  - intros -> o. cbn. destruct (truthy_str (imp_Name imp)).
    + by intros ?%list_elem_of_singleton.
    + apply not_elem_of_nil.
  - intros -> n. cbn. rewrite app_nil_r.
    destruct (truthy_int (imp_Ordinal imp)).
    + by intros ?%list_elem_of_singleton.
    + apply not_elem_of_nil.
  - intros -> ->. cbn. by rewrite app_nil_r.
Qed.

Lemma falsy_import_components_are_dropped_witness :
  import_body {[ "WS2_32.dll" := [ByOrdinal 115] ]} Sample.by_ordinal_0
    !! "WS2_32.dll"
  = Some [ByOrdinal 115].
Proof.
  refine (proj1 (falsy_import_components_are_dropped
                   {[ "WS2_32.dll" := [ByOrdinal 115] ]} Sample.by_ordinal_0
                   "WS2_32.dll" _)).
  reflexivity.
Defined.

(** * The whole run *)

Lemma run_metadata host scanObject :
  (_run host scanObject).1 = metadata (run_body host scanObject empty_store).1.
Proof.
  unfold _run. by destruct (run_body host scanObject empty_store) as [st [[]|e]].
Qed.

Lemma run_returns host scanObject children :
  (_run host scanObject).2 = Ok children →
  ∃ st, run_body host scanObject empty_store = (st, Ok tt)
        ∧ children = moduleResult st.
Proof.
  unfold _run.
  destruct (run_body host scanObject empty_store) as [st [[]|e]]; cbn; [|done].
  intros [= <-]. eauto.
Qed.

(** [C1].  When pefile rejects the buffer with a format error, [_run] adds no
    metadata and returns the empty list; no exception leaves it. *)
Theorem invalid_signature_yields_nothing host scanObject :
  pefile_PE host (buffer scanObject) = Raise PEFormatError →
  _run host scanObject = ([], Ok []).
Proof.
  intros H. unfold _run, run_body, try_except.
  rewrite bind_eval. unfold lift. by rewrite H.
Qed.

Lemma invalid_signature_yields_nothing_witness :
  _run Sample.host {| buffer := bytes_of "#!/bin/sh"; objectHash := "d41d" |}
  = ([], Ok []).
Proof.
  apply (invalid_signature_yields_nothing Sample.host
           {| buffer := bytes_of "#!/bin/sh"; objectHash := "d41d" |}).
  reflexivity.
Defined.

#[export] Hint Extern 2 (emits _ _ (moduleResult_append _)) =>
  apply emits_moduleResult_append; cbn; try done : emits.

Ltac unfold_blocks :=
  unfold extract, meta_sections, section_body, meta_exports, meta_imphash,
    meta_imports, meta_image_characteristics, meta_date, meta_machine,
    meta_image_magic, meta_dll_characteristics, meta_subsystem,
    meta_resources, resource_body, resource_entry, resource_leaf,
    meta_sizes, meta_rsds, meta_rich.

(** * Image Magic *)

Lemma run_body_image_magic host scanObject :
  emits (λ kv, kv.1 = "Image Magic" → kv.2 = MStr "Unknown") (λ _, True)
        (run_body host scanObject).
Proof. unfold run_body. unfold_blocks. emits. Qed.

(** [C5], what the code does.  Whatever the optional header's magic is, the
    value [_run] stores under 'Image Magic' is 'Unknown': the local variable
    [imageMagic] looked up in the table is never assigned from the header. *)
Theorem Image_Magic_is_always_Unknown host scanObject value :
  ("Image Magic", value) ∈ (_run host scanObject).1 → value = MStr "Unknown".
Proof.
  rewrite run_metadata. intros Hin.
  destruct (emits_metadata_prefix _ _ _ empty_store
              (run_body_image_magic host scanObject)) as (d & Hd & HP).
  rewrite Hd in Hin. cbn in Hin.
  rewrite Forall_forall in HP. by apply (HP _ Hin).
Qed.

Lemma Image_Magic_is_always_Unknown_witness :
  Magic (OPTIONAL_HEADER Sample.pe) = 0x10b
  ∧ ("Image Magic", MStr "Unknown") ∈ (_run Sample.host Sample.scan).1
  ∧ MStr "Unknown" = MStr "Unknown".
Proof.
  assert (("Image Magic", MStr "Unknown") ∈ (_run Sample.host Sample.scan).1)
    as Hin by (apply list_elem_of_lookup; exists 8%nat; vm_compute; reflexivity).
  split_and!; [reflexivity|exact Hin|].
  exact (Image_Magic_is_always_Unknown Sample.host Sample.scan _ Hin).
Defined.

(** * The section table *)

Lemma make_secInfo_MD5 section secInfo :
  make_secInfo section = Ok secInfo → MD5 secInfo = section_md5 section.
Proof.
  unfold make_secInfo.
  destruct (format_0x08X (sec_VirtualAddress section)); cbn; [|done].
  by intros [= <-].
Qed.

(** One turn of the loop over [dump_dict['PE Sections']]. *)
Lemma section_body_eval scanObject pe sections section st :
  section_body scanObject pe sections section st
  = match get_data pe (sec_PointerToRawData section) (sec_SizeOfRawData section),
          make_secInfo section with
    | Ok secData, Ok secInfo =>
        (if decide (emitted scanObject section)
         then {| metadata := metadata st;
                 moduleResult :=
                   moduleResult st
                   ++ [{| mo_buffer := secData;
                          mo_filename := section_name section |}] |}
         else st,
         Ok (<[section_name section := SecInfo secInfo]> sections))
    | Ok _, Raise e => (st, Raise e)
    | Raise e, _ => (st, Raise e)
    end.
Proof.
  unfold section_body. rewrite bind_eval. unfold lift at 1.
  destruct (get_data pe _ _) as [secData|e]; [|done].
  rewrite bind_eval. unfold lift at 1.
  destruct (make_secInfo section) as [secInfo|e] eqn:Hinfo; [|done].
  rewrite bind_eval, (make_secInfo_MD5 _ _ Hinfo). unfold emitted.
  destruct (decide (section_md5 section ≠ objectHash scanObject)).
  - by rewrite bool_decide_true.
  - by rewrite bool_decide_false.
Qed.

Lemma section_entry_eval pe sections section :
  section_entry pe sections section
  = match get_data pe (sec_PointerToRawData section) (sec_SizeOfRawData section),
          make_secInfo section with
    | Ok _, Ok secInfo => Ok (<[section_name section := SecInfo secInfo]> sections)
    | Ok _, Raise e => Raise e
    | Raise e, _ => Raise e
    end.
Proof.
  unfold section_entry.
  destruct (get_data pe _ _); [|done]. cbn.
  by destruct (make_secInfo section).
Qed.

(** The whole loop: the metadata is not touched, the dictionary is built
    without a look at the hash, and the children are those of the sections
    whose hash is not the object's, in the order of the table. *)
Lemma section_loop_eval scanObject pe secs acc st :
  ∃ children,
    (for_eachM (section_body scanObject pe) secs acc st).1
    = {| metadata := metadata st; moduleResult := moduleResult st ++ children |}
    ∧ (for_eachM (section_body scanObject pe) secs acc st).2
      = for_each (section_entry pe) secs acc
    ∧ (raised (for_each (section_entry pe) secs acc) = None →
       Forall2 (is_child_of pe) (filter (emitted scanObject) secs) children).
Proof.
  revert acc st. induction secs as [|s secs IH]; intros acc st.
  - exists []. cbn. rewrite app_nil_r. by destruct st.
  - cbn [for_eachM for_each]. rewrite bind_eval, section_body_eval.
    rewrite section_entry_eval, filter_cons.
    destruct (get_data pe _ _) as [secData|e] eqn:Hdata;
      [|exists []; cbn; rewrite app_nil_r; by destruct st].
    destruct (make_secInfo s) as [secInfo|e];
      [|exists []; cbn; rewrite app_nil_r; by destruct st].
    cbn [mbind result_bind].
    destruct (decide (emitted scanObject s)) as [Hs|Hs].
    + match goal with |- context [for_eachM _ secs ?a ?t] =>
        destruct (IH a t) as (cs & H1 & H2 & H3) end.
      exists ({| mo_buffer := secData; mo_filename := section_name s |} :: cs).
      rewrite H1, H2. cbn. rewrite <- app_assoc. split_and!; [done..|].
      intros Hok. constructor; [by split|auto].
    + match goal with |- context [for_eachM _ secs ?a ?t] =>
        destruct (IH a t) as (cs & H1 & H2 & H3) end.
      exists cs. by rewrite H1, H2.
Qed.

(** [meta_sections] from the empty store. *)
Lemma meta_sections_eval scanObject pe dump :
  ∃ children,
    match for_each (section_entry pe) (default [] (PE_Sections dump)) ∅ with
    | Ok sections =>
        meta_sections scanObject pe dump empty_store
        = ({| metadata :=
                [("Sections",
                  MSections (<["Total" := SecTotal (NumberOfSections (FILE_HEADER pe))]>
                               sections))];
              moduleResult := children |}, Ok tt)
        ∧ Forall2 (is_child_of pe)
                  (filter (emitted scanObject) (default [] (PE_Sections dump)))
                  children
    | Raise e =>
        meta_sections scanObject pe dump empty_store
        = ({| metadata := []; moduleResult := children |}, Raise e)
    end.
Proof.
  destruct (section_loop_eval scanObject pe (default [] (PE_Sections dump)) ∅
              empty_store) as (cs & H1 & H2 & H3).
  exists cs. unfold meta_sections. rewrite bind_eval.
  destruct (for_eachM _ _ _ _) as [st1 r]. cbn in H1, H2. subst st1 r.
  destruct (for_each _ _ _) as [sections|e]; [|done].
  split; [done|]. by apply H3.
Qed.

(** * The run of a parsed image *)

Lemma run_body_parsed host scanObject pe dump :
  pefile_PE host (buffer scanObject) = Ok pe →
  dump_dict pe = Ok dump →
  run_body host scanObject empty_store
  = ((extract host scanObject pe dump (KStr "") empty_store).1,
     outer_except (extract host scanObject pe dump (KStr "") empty_store).2).
Proof.
  intros Hpe Hdump. unfold run_body, try_except.
  rewrite bind_eval. unfold lift at 1. rewrite Hpe.
  rewrite bind_eval. unfold lift at 1. rewrite Hdump.
  destruct (extract _ _ _ _ _ _) as [st [[]|e]]; [done|].
  by destruct e.
Qed.

Lemma run_body_not_parsed host scanObject :
  (∀ pe, pefile_PE host (buffer scanObject) = Ok pe →
         raised (dump_dict pe) ≠ None) →
  (run_body host scanObject empty_store).1 = empty_store.
Proof.
  intros H. unfold run_body, try_except.
  rewrite bind_eval. unfold lift at 1.
  destruct (pefile_PE host (buffer scanObject)) as [pe|e]; [|by destruct e].
  rewrite bind_eval. unfold lift at 1.
  specialize (H pe eq_refl).
  destruct (dump_dict pe) as [dump|e]; [done|by destruct e].
Qed.

(** A run that added metadata went through the constructor and
    [dump_dict]. *)
Lemma run_added_parsed host scanObject kv :
  kv ∈ (_run host scanObject).1 →
  ∃ pe dump, pefile_PE host (buffer scanObject) = Ok pe
             ∧ dump_dict pe = Ok dump.
Proof.
  rewrite run_metadata. intros Hin.
  destruct (pefile_PE host (buffer scanObject)) as [pe|e] eqn:Hpe.
  - destruct (dump_dict pe) as [dump|e] eqn:Hdump; [by eauto|].
    rewrite run_body_not_parsed in Hin; [by apply elem_of_nil in Hin|].
    intros pe' Hpe'. rewrite Hpe in Hpe'. injection Hpe' as <-.
    by rewrite Hdump.
  - rewrite run_body_not_parsed in Hin; [by apply elem_of_nil in Hin|].
    intros pe' Hpe'. by rewrite Hpe in Hpe'.
Qed.

Lemma extract_after_sections host scanObject pe dump imageMagic st :
  extract host scanObject pe dump imageMagic st
  = (meta_sections scanObject pe dump;;
     run_blocks (drop 1 (blocks host scanObject pe dump imageMagic))) st.
Proof. by rewrite extract_blocks, <- run_blocks_cons. Qed.

(** After the section table nothing is stored under 'Sections' and no child
    buffer is added. *)
Lemma after_sections_emits host scanObject pe dump imageMagic :
  emits (λ kv, kv.1 ≠ "Sections") (λ _, False)
        (run_blocks (drop 1 (blocks host scanObject pe dump imageMagic))).
Proof.
  apply emits_run_blocks. cbn [drop blocks].
  repeat constructor; unfold_blocks; emits.
Qed.

(** The store after [extract], in the two ways the section loop can end. *)
Lemma extract_eval host scanObject pe dump :
  ∃ children,
    match for_each (section_entry pe) (default [] (PE_Sections dump)) ∅ with
    | Ok sections =>
        (∃ md,
           (extract host scanObject pe dump (KStr "") empty_store).1
           = {| metadata :=
                  ("Sections",
                   MSections (<["Total" := SecTotal (NumberOfSections (FILE_HEADER pe))]>
                                sections)) :: md;
                moduleResult := children |}
           ∧ Forall (λ kv, kv.1 ≠ "Sections") md)
        ∧ Forall2 (is_child_of pe)
                  (filter (emitted scanObject) (default [] (PE_Sections dump)))
                  children
    | Raise e =>
        extract host scanObject pe dump (KStr "") empty_store
        = ({| metadata := []; moduleResult := children |}, Raise e)
    end.
Proof.
  destruct (meta_sections_eval scanObject pe dump) as (cs & H).
  exists cs. rewrite extract_after_sections, bind_eval.
  destruct (for_each _ _ _) as [sections|e].
  - destruct H as [-> H]. split; [|done].
    destruct (after_sections_emits host scanObject pe dump (KStr "")
                {| metadata :=
                     [("Sections",
                       MSections (<["Total" := SecTotal (NumberOfSections (FILE_HEADER pe))]>
                                    sections))];
                   moduleResult := cs |}) as (d & -> & HP & HQ).
    exists (metadata d). split; [|done].
    unfold st_app. cbn. do 2 f_equal.
    destruct (moduleResult d) as [|c ?]; [by rewrite app_nil_r|].
    by inversion HQ.
  - by rewrite H.
Qed.

Lemma sections_done_all pe secs acc sections :
  for_each (section_entry pe) secs acc = Ok sections →
  sections_done pe secs = secs.
Proof.
  revert acc. induction secs as [|s secs IH]; intros acc; [done|].
  cbn [for_each sections_done]. rewrite !section_entry_eval.
  destruct (get_data pe _ _); [|done].
  destruct (make_secInfo s); [|done].
  cbn [mbind result_bind]. intros H. by rewrite (IH _ H).
Qed.

Lemma sections_done_cut pe secs acc e :
  for_each (section_entry pe) secs acc = Raise e →
  sections_done pe secs ≠ secs.
Proof.
  revert acc. induction secs as [|s secs IH]; intros acc; [done|].
  cbn [for_each sections_done]. rewrite !section_entry_eval.
  destruct (get_data pe _ _); [|done].
  destruct (make_secInfo s); [|done].
  cbn [mbind result_bind]. intros H [= Heq]. by apply (IH _ H).
Qed.

(** The children the loop has appended when it ends, normally or not, are
    those of the sections it got through whose hash is not the object's. *)
Lemma section_loop_done scanObject pe secs acc st :
  ∃ children,
    (for_eachM (section_body scanObject pe) secs acc st).1
    = {| metadata := metadata st; moduleResult := moduleResult st ++ children |}
    ∧ Forall2 (is_child_of pe)
              (filter (emitted scanObject) (sections_done pe secs)) children.
Proof.
  revert acc st. induction secs as [|s secs IH]; intros acc st.
  - exists []. cbn. rewrite app_nil_r. by destruct st.
  - cbn [for_eachM sections_done]. rewrite bind_eval, section_body_eval.
    rewrite section_entry_eval.
    destruct (get_data pe _ _) as [secData|e] eqn:Hdata;
      [|exists []; cbn; rewrite app_nil_r; by destruct st].
    destruct (make_secInfo s) as [secInfo|e];
      [|exists []; cbn; rewrite app_nil_r; by destruct st].
    rewrite filter_cons.
    destruct (decide (emitted scanObject s)) as [Hs|Hs].
    + match goal with |- context [for_eachM _ secs ?a ?t] =>
        destruct (IH a t) as (cs & H1 & H2) end.
      exists ({| mo_buffer := secData; mo_filename := section_name s |} :: cs).
      rewrite H1. cbn. rewrite <- app_assoc. split; [done|].
      constructor; [by split|done].
    + match goal with |- context [for_eachM _ secs ?a ?t] =>
        destruct (IH a t) as (cs & H1 & H2) end.
      exists cs. by rewrite H1.
Qed.

Lemma extract_children_done host scanObject pe dump :
  Forall2 (is_child_of pe)
          (filter (emitted scanObject)
                  (sections_done pe (default [] (PE_Sections dump))))
          (moduleResult (extract host scanObject pe dump (KStr "") empty_store).1).
Proof.
  destruct (section_loop_done scanObject pe (default [] (PE_Sections dump)) ∅
              empty_store) as (cs & H1 & H2).
  rewrite extract_after_sections, bind_eval. unfold meta_sections.
  rewrite bind_eval.
  destruct (for_eachM _ _ _ _) as [st1 [sections|e]]; cbn [fst] in H1; subst st1;
    [|done].
  unfold addMetadata at 1.
  by rewrite (emits_no_child _ _ _ (after_sections_emits host scanObject pe dump (KStr ""))).
Qed.

(** [C6], as amended.  For a parsed image and a run that returns: when the
    section table was read to the end (the 'Sections' metadata is stored),
    the returned list holds, in the order of the table, one child buffer for
    each section whose MD5 is not the object's hash, and nothing else: a
    section is handed back if and only if its hash differs.  In general the
    same holds of the sections the loop got through, those before the first
    one at which [pe.get_data] or the formatting raised; no later section is
    handed back, and none with the object's hash ever is.  'Sections' is
    stored exactly when the loop got through the whole table. *)
Theorem children_are_the_sections_with_another_hash
    host scanObject pe dump children :
  pefile_PE host (buffer scanObject) = Ok pe →
  dump_dict pe = Ok dump →
  (_run host scanObject).2 = Ok children →
  (populated "Sections" (_run host scanObject).1 →
   Forall2 (is_child_of pe)
           (filter (λ section, section_md5 section ≠ objectHash scanObject)
                   (default [] (PE_Sections dump)))
           children)
  ∧ Forall2 (is_child_of pe)
            (filter (λ section, section_md5 section ≠ objectHash scanObject)
                    (sections_done pe (default [] (PE_Sections dump))))
            children
  ∧ (populated "Sections" (_run host scanObject).1
     ↔ sections_done pe (default [] (PE_Sections dump))
       = default [] (PE_Sections dump)).
Proof.
  intros Hpe Hdump Hret.
  apply run_returns in Hret as (st & Hrun & ->).
  unfold populated. rewrite run_metadata.
  rewrite (run_body_parsed _ _ _ _ Hpe Hdump) in Hrun |- *.
  cbn [fst]. injection Hrun as Hst _. subst st.
  pose proof (extract_children_done host scanObject pe dump) as Hdone.
  assert ("Sections" ∈ (metadata (extract host scanObject pe dump (KStr "")
                                     empty_store).1).*1
          ↔ sections_done pe (default [] (PE_Sections dump))
            = default [] (PE_Sections dump)) as Hiff.
  { destruct (extract_eval host scanObject pe dump) as (cs & H).
    destruct (for_each _ _ _) as [sections|e] eqn:Hloop.
    - destruct H as [(md & -> & _) _]. cbn.
      split; [intros _; by eapply sections_done_all|intros _; by left].
    - rewrite H. cbn. split; [by intros ?%elem_of_nil|].
      intros Heq. by destruct (sections_done_cut _ _ _ _ Hloop). }
  split_and!; [|done..].
  intros Hpop. apply Hiff in Hpop. by rewrite Hpop in Hdone.
Qed.

Lemma children_are_the_sections_with_another_hash_witness :
  Forall2 (is_child_of Sample.pe)
          (filter (λ section, section_md5 section ≠ objectHash Sample.scan)
                  [Sample.text; Sample.whole])
          [{| mo_buffer := bytes_of "code"; mo_filename := ".text" |}].
Proof.
  refine (proj1 (children_are_the_sections_with_another_hash
                   Sample.host Sample.scan Sample.pe Sample.dump _ _ _ _) _).
  - reflexivity.
  - reflexivity.
  - vm_compute. reflexivity.
  - apply list_elem_of_lookup. exists 0%nat. vm_compute. reflexivity.
Defined.

(** [C6], the claim as stated, fails.  This image is parsed, its section
    [.data] is in the section table and has a hash of its own, yet no child
    buffer is returned for it: its raw data lies past the end of the file,
    [pe.get_data] raises a format error at it, and the run returns what the
    loop had appended before, the child of [.text]. *)
Lemma section_after_a_failure_is_not_returned :
  pefile_PE (parsing (Ok Sample.truncated) Sample.host) (buffer Sample.scan)
  = Ok Sample.truncated
  ∧ PE_Sections <$> returned (dump_dict Sample.truncated)
    = Some (Some [Sample.text; Sample.beyond])
  ∧ section_name Sample.beyond = ".data"
  ∧ section_md5 Sample.beyond ≠ objectHash Sample.scan
  ∧ _run (parsing (Ok Sample.truncated) Sample.host) Sample.scan
    = ([], Ok [{| mo_buffer := bytes_of "code"; mo_filename := ".text" |}])
  ∧ sections_done Sample.truncated [Sample.text; Sample.beyond] = [Sample.text].
Proof. split_and!; try (vm_compute; reflexivity). vm_compute. discriminate. Qed.

(** * The 'Sections' dictionary *)

Lemma for_each_app {A S} (body : S → A → result S) (xs ys : list A) (acc : S) :
  for_each body (xs ++ ys) acc = for_each body xs acc ≫= for_each body ys.
Proof.
  revert acc. induction xs as [|x xs IH]; intros acc; [done|].
  cbn. destruct (body acc x); cbn; [apply IH|done].
Qed.

(** Every section of the table is in the dictionary the loop builds, under
    its name, with the record of the last section of that name. *)
Lemma section_fold_lookup pe secs acc sections section :
  for_each (section_entry pe) secs acc = Ok sections →
  section ∈ secs →
  ∃ section' secInfo,
    section' ∈ secs
    ∧ section_name section' = section_name section
    ∧ make_secInfo section' = Ok secInfo
    ∧ sections !! section_name section = Some (SecInfo secInfo).
Proof.
  revert sections. induction secs as [|x secs IH] using rev_ind;
    intros sections Hloop Hin; [by apply elem_of_nil in Hin|].
  rewrite for_each_app in Hloop.
  destruct (for_each (section_entry pe) secs acc) as [acc1|e] eqn:H1; [|done].
  cbn in Hloop. rewrite section_entry_eval in Hloop.
  destruct (get_data pe _ _); [|done].
  destruct (make_secInfo x) as [info|] eqn:Hinfo; [|done].
  cbn in Hloop. injection Hloop as <-.
  destruct (decide (section_name x = section_name section)) as [Heq|Hne].
  - exists x, info. rewrite <- Heq, lookup_insert_eq.
    split_and!; [apply elem_of_app; right; by left|done..].
  - apply elem_of_app in Hin as [Hin|Hin%list_elem_of_singleton];
      [|by subst].
    destruct (IH _ eq_refl Hin) as (s' & info' & ? & ? & ? & ?).
    exists s', info'. rewrite lookup_insert_ne by done.
    split_and!; [apply elem_of_app; by left|done..].
Qed.

Lemma run_metadata_cases host scanObject :
  (_run host scanObject).1
  = match pefile_PE host (buffer scanObject) with
    | Ok pe =>
        match dump_dict pe with
        | Ok dump =>
            metadata (extract host scanObject pe dump (KStr "") empty_store).1
        | Raise _ => []
        end
    | Raise _ => []
    end.
Proof.
  rewrite run_metadata.
  destruct (pefile_PE host (buffer scanObject)) as [pe|e] eqn:Hpe.
  - destruct (dump_dict pe) as [dump|e] eqn:Hdump.
    + by rewrite (run_body_parsed _ _ _ _ Hpe Hdump).
    + rewrite run_body_not_parsed; [done|].
      intros pe' Hpe'. rewrite Hpe in Hpe'. injection Hpe' as <-.
      by rewrite Hdump.
  - rewrite run_body_not_parsed; [done|].
    intros pe' Hpe'. by rewrite Hpe in Hpe'.
Qed.

Lemma writer_after_sections host scanObject pe dump imageMagic :
  writer (run_blocks (drop 1 (blocks host scanObject pe dump imageMagic))).
Proof. apply writer_run_blocks, Forall_drop, writer_blocks. Qed.

(** The metadata a parsed image gets does not depend on the object's hash. *)
Lemma extract_metadata_any_hash host scanObject hash pe dump :
  metadata (extract host {| buffer := buffer scanObject; objectHash := hash |}
                    pe dump (KStr "") empty_store).1
  = metadata (extract host scanObject pe dump (KStr "") empty_store).1.
Proof.
  rewrite !extract_after_sections, !bind_eval.
  destruct (meta_sections_eval scanObject pe dump) as (cs & H).
  destruct (meta_sections_eval
              {| buffer := buffer scanObject; objectHash := hash |} pe dump)
    as (cs' & H').
  destruct (for_each _ _ _) as [sections|e].
  - destruct H as [-> _], H' as [-> _].
    change (run_blocks (drop 1 (blocks host
              {| buffer := buffer scanObject; objectHash := hash |}
              pe dump (KStr ""))))
      with (run_blocks (drop 1 (blocks host scanObject pe dump (KStr "")))).
    rewrite (writer_after_sections host scanObject pe dump (KStr "")
               {| metadata := _; moduleResult := cs |}).
    by rewrite (writer_after_sections host scanObject pe dump (KStr "")
                  {| metadata := _; moduleResult := cs' |}).
  - by rewrite H, H'.
Qed.

(** [C10].  Leaving a section out of the child buffers touches nothing else.
    A turn of the loop for a section whose MD5 is the object's hash leaves
    the store as it was and still enters the section's record under its
    name.  The stored 'Sections' dictionary holds, under 'Total', the
    header's number of sections, and for every section of the table, left out
    or not, a record under its name (that of the last section so named;
    'Total' itself apart).  And all the metadata of a run is the same
    whatever the object's hash is. *)
Theorem excluded_section_is_still_recorded :
  (∀ scanObject pe sections section st st' sections',
     section_md5 section = objectHash scanObject →
     section_body scanObject pe sections section st = (st', Ok sections') →
     st' = st
     ∧ ∃ secInfo,
         make_secInfo section = Ok secInfo
         ∧ sections' = <[section_name section := SecInfo secInfo]> sections)
  ∧ (∀ host scanObject d,
       ("Sections", MSections d) ∈ (_run host scanObject).1 →
       ∃ pe dump,
         pefile_PE host (buffer scanObject) = Ok pe
         ∧ dump_dict pe = Ok dump
         ∧ d !! "Total" = Some (SecTotal (NumberOfSections (FILE_HEADER pe)))
         ∧ ∀ section,
             section ∈ default [] (PE_Sections dump) →
             section_name section ≠ "Total" →
             ∃ section' secInfo,
               section' ∈ default [] (PE_Sections dump)
               ∧ section_name section' = section_name section
               ∧ make_secInfo section' = Ok secInfo
               ∧ d !! section_name section = Some (SecInfo secInfo))
  ∧ (∀ host scanObject hash,
       (_run host {| buffer := buffer scanObject; objectHash := hash |}).1
       = (_run host scanObject).1).
Proof.
  split_and!.
  - intros scanObject pe sections section st st' sections' Hmd5.
    rewrite section_body_eval.
    destruct (get_data pe _ _); [|done].
    destruct (make_secInfo section) as [secInfo|]; [|done].
    rewrite decide_False by (unfold emitted; by intros []).
    intros [= <- <-]. eauto.
  - intros host scanObject d Hin.
    destruct (run_added_parsed _ _ _ Hin) as (pe & dump & Hpe & Hdump).
    exists pe, dump. split_and!; [done..| |];
      rewrite run_metadata, (run_body_parsed _ _ _ _ Hpe Hdump) in Hin;
      cbn [fst] in Hin;
      destruct (extract_eval host scanObject pe dump) as (cs & H);
      (destruct (for_each _ _ _) as [sections|e] eqn:Hloop;
       [destruct H as [(md & H & Hmd) _]; rewrite H in Hin; cbn in Hin;
        apply elem_of_cons in Hin as [[= ->]|Hin];
        [|rewrite Forall_forall in Hmd; by destruct (Hmd _ Hin)]
       |rewrite H in Hin; by apply elem_of_nil in Hin]).
    + by rewrite lookup_insert_eq.
    + intros section Hsec Hname.
      destruct (section_fold_lookup _ _ _ _ _ Hloop Hsec)
        as (s' & info & ? & ? & ? & ?).
      exists s', info. by rewrite lookup_insert_ne.
  - intros host scanObject hash. rewrite !run_metadata_cases. cbn [buffer].
    destruct (pefile_PE host (buffer scanObject)) as [pe|]; [|done].
    destruct (dump_dict pe) as [dump|]; [|done].
    apply extract_metadata_any_hash.
Qed.

Lemma excluded_section_is_still_recorded_witness :
  section_md5 Sample.whole = objectHash Sample.scan
  ∧ ∃ d, (_run Sample.host Sample.scan).1 !! 0%nat
         = Some ("Sections", MSections d)
         ∧ d !! "Total" = Some (SecTotal 2)
         ∧ ∃ section' secInfo,
             section' ∈ [Sample.text; Sample.whole]
             ∧ section_name section' = "UPX0"
             ∧ make_secInfo section' = Ok secInfo
             ∧ d !! "UPX0" = Some (SecInfo secInfo).
Proof.
  split; [reflexivity|].
  destruct (_run Sample.host Sample.scan).1 as [|[k [d| | | | | | | | | |]] md]
    eqn:Hrun; try (vm_compute in Hrun; discriminate).
  assert (k = "Sections") as -> by (vm_compute in Hrun; congruence).
  exists d. split; [done|].
  destruct (proj1 (proj2 excluded_section_is_still_recorded)
              Sample.host Sample.scan d) as (pe & dump & Hpe & Hdump & Ht & Hs).
  { rewrite Hrun. by left. }
  injection Hpe as <-. injection Hdump as <-.
  split; [exact Ht|].
  apply (Hs Sample.whole); [by right; left|vm_compute; discriminate].
Defined.

(** * The guarded fields *)

Lemma others_app key md1 md2 :
  others key (md1 ++ md2) = others key md1 ++ others key md2.
Proof. apply filter_app. Qed.

Lemma others_only key md :
  Forall (λ kv, kv.1 = key) md → others key md = [].
Proof.
  induction 1 as [|kv md Hkv _ IH]; [done|].
  unfold others in *. rewrite filter_cons, decide_False; [done|].
  by intros [].
Qed.

(** What a block adds when all it adds goes under one key. *)
Lemma single_key_block key (b : M unit) :
  emits (λ kv, kv.1 = key) (λ _, False) b →
  others key (metadata (b empty_store).1) = []
  ∧ moduleResult (b empty_store).1 = [].
Proof.
  intros Hb. destruct (Hb empty_store) as (d & Hd & HP & HQ).
  rewrite Hd, st_app_empty_l. split; [by apply others_only|].
  destruct (moduleResult d); [done|by inversion HQ].
Qed.

(** Two sequences of blocks that differ in one block, which in both ends
    normally and stores under [key] only. *)
Lemma guarded_block_alone key (pre post : list (M unit)) (b1 b2 : M unit) st :
  Forall writer post → writer b1 → writer b2 →
  emits (λ kv, kv.1 = key) (λ _, False) b1 →
  emits (λ kv, kv.1 = key) (λ _, False) b2 →
  (b1 empty_store).2 = Ok tt → (b2 empty_store).2 = Ok tt →
  others key (metadata (run_blocks (pre ++ b1 :: post) st).1)
  = others key (metadata (run_blocks (pre ++ b2 :: post) st).1)
  ∧ moduleResult (run_blocks (pre ++ b1 :: post) st).1
    = moduleResult (run_blocks (pre ++ b2 :: post) st).1
  ∧ (run_blocks (pre ++ b1 :: post) st).2
    = (run_blocks (pre ++ b2 :: post) st).2.
Proof.
  intros Hpost Hw1 Hw2 He1 He2 Hr1 Hr2.
  apply writer_run_blocks in Hpost.
  destruct (single_key_block _ _ He1) as [Hk1 Hc1].
  destruct (single_key_block _ _ He2) as [Hk2 Hc2].
  rewrite !run_blocks_app, !bind_eval.
  destruct (run_blocks pre st) as [st1 [[]|e]]; [|done].
  rewrite !run_blocks_cons, !bind_eval, (Hw1 st1), (Hw2 st1), Hr1, Hr2.
  rewrite (Hpost (st_app st1 _)), (Hpost (st_app st1 (b2 empty_store).1)).
  cbn [fst snd st_app metadata moduleResult].
  rewrite !others_app, Hk1, Hk2, Hc1, Hc2. done.
Qed.

Lemma run_parsed host scanObject pe dump :
  pefile_PE host (buffer scanObject) = Ok pe →
  dump_dict pe = Ok dump →
  _run host scanObject
  = (metadata (extract host scanObject pe dump (KStr "") empty_store).1,
     match outer_except (extract host scanObject pe dump (KStr "") empty_store).2 with
     | Ok _ =>
         Ok (moduleResult (extract host scanObject pe dump (KStr "") empty_store).1)
     | Raise e => Raise e
     end).
Proof.
  intros Hpe Hdump. unfold _run.
  rewrite (run_body_parsed _ _ _ _ Hpe Hdump).
  by destruct (outer_except _) as [[]|e].
Qed.

Lemma run_dump_fails host scanObject pe e :
  pefile_PE host (buffer scanObject) = Ok pe →
  dump_dict pe = Raise e →
  _run host scanObject
  = ([], match e with PEFormatError => Ok [] | _ => Raise e end).
Proof.
  intros Hpe Hdump. unfold _run, run_body, try_except.
  rewrite bind_eval. unfold lift at 1. rewrite Hpe.
  rewrite bind_eval. unfold lift at 1. rewrite Hdump.
  by destruct e.
Qed.

(** The same for whole runs on two images that differ in one guarded part. *)
Lemma run_same_but key host scanObject pe1 pe2
    (pre post : DumpDict → list (M unit)) (b1 b2 : M unit) :
  dump_dict pe1 = dump_dict pe2 →
  (∀ dump, blocks (parsing (Ok pe1) host) scanObject pe1 dump (KStr "")
           = pre dump ++ b1 :: post dump) →
  (∀ dump, blocks (parsing (Ok pe2) host) scanObject pe2 dump (KStr "")
           = pre dump ++ b2 :: post dump) →
  (∀ dump, Forall writer (post dump)) → writer b1 → writer b2 →
  emits (λ kv, kv.1 = key) (λ _, False) b1 →
  emits (λ kv, kv.1 = key) (λ _, False) b2 →
  (b1 empty_store).2 = Ok tt → (b2 empty_store).2 = Ok tt →
  same_but key (_run (parsing (Ok pe1) host) scanObject)
               (_run (parsing (Ok pe2) host) scanObject).
Proof.
  intros Hdump H1 H2 Hpost Hw1 Hw2 He1 He2 Hr1 Hr2. unfold same_but.
  destruct (dump_dict pe2) as [dump|e] eqn:Hdump2.
  - rewrite (run_parsed (parsing (Ok pe1) host) scanObject pe1 dump eq_refl Hdump).
    rewrite (run_parsed (parsing (Ok pe2) host) scanObject pe2 dump eq_refl Hdump2).
    rewrite !extract_blocks, H1, H2. cbn [fst snd].
    destruct (guarded_block_alone key (pre dump) (post dump) b1 b2 empty_store
                (Hpost dump) Hw1 Hw2 He1 He2 Hr1 Hr2) as (-> & -> & ->).
    done.
  - rewrite (run_dump_fails (parsing (Ok pe1) host) scanObject pe1 e eq_refl Hdump).
    by rewrite (run_dump_fails (parsing (Ok pe2) host) scanObject pe2 e eq_refl Hdump2).
Qed.

Lemma for_eachM_pure {A S} (f : S → A → S) (xs : list A) (acc : S) st :
  for_eachM (λ acc x, mret (f acc x)) xs acc st = (st, Ok (foldl f acc xs)).
Proof.
  revert acc. induction xs as [|x xs IH]; intros acc; [done|].
  cbn [for_eachM foldl]. rewrite bind_eval. cbn. apply IH.
Qed.

Lemma meta_exports_returns pe :
  not_cancelled (DIRECTORY_ENTRY_EXPORT pe) →
  (meta_exports pe empty_store).2 = Ok tt.
Proof.
  unfold meta_exports, try_except. rewrite bind_eval. unfold lift at 1.
  destruct (DIRECTORY_ENTRY_EXPORT pe) as [symbols|e]; cbn [not_cancelled].
  - intros _. by rewrite bind_eval, for_eachM_pure.
  - by intros ->.
Qed.

Lemma meta_imphash_returns pe st :
  (meta_imphash pe st).2 = Ok tt.
Proof.
  unfold meta_imphash, try_except. rewrite bind_eval. unfold lift at 1.
  by destruct (get_imphash pe).
Qed.

Lemma meta_exports_emits pe :
  emits (λ kv, kv.1 = "Exports") (λ _, False) (meta_exports pe).
Proof. unfold meta_exports. emits. Qed.

Lemma meta_imphash_emits pe :
  emits (λ kv, kv.1 = "Imphash") (λ _, False) (meta_imphash pe).
Proof. unfold meta_imphash. emits. Qed.

Lemma meta_resources_emits host pe :
  emits (λ kv, kv.1 = "Resources") (λ _, False) (meta_resources host pe).
Proof.
  unfold meta_resources, resource_body, resource_entry, resource_leaf. emits.
Qed.

(** A block that raises ends the sequence: the blocks after it do not run. *)
Lemma run_blocks_raise (bs : list (M unit)) k b e st st1 st2 :
  bs !! k = Some b →
  run_blocks (take k bs) st = (st1, Ok tt) →
  b st1 = (st2, Raise e) →
  run_blocks bs st = (st2, Raise e).
Proof.
  intros Hk Hpre Hb. rewrite <- (take_drop_middle bs k b Hk).
  rewrite run_blocks_app, bind_eval, Hpre, run_blocks_cons, bind_eval.
  by rewrite Hb.
Qed.

(** The resource block is the walk under its two handlers; it returns
    whenever the walk does not end in a scan-control exception. *)
Lemma meta_resources_walk host pe :
  meta_resources host pe
  = try_except (resource_walk host pe)
               (λ e, if is_cancellation e then raise e else mret tt).
Proof. reflexivity. Qed.

Lemma meta_resources_returns host pe :
  not_cancelled (resource_walk host pe empty_store).2 →
  (meta_resources host pe empty_store).2 = Ok tt.
Proof.
  rewrite meta_resources_walk. unfold try_except.
  destruct (resource_walk host pe empty_store) as [st [[]|e]];
    cbn [snd not_cancelled]; [done|].
  by intros ->.
Qed.

(** The blocks of the fields that are computed outside any inner [try]
    pass on what their library calls raise, and have stored nothing then. *)
Lemma meta_imports_missing dump st :
  Imported_symbols dump = None → meta_imports dump st = (st, Raise KeyError).
Proof.
  intros H. unfold meta_imports. rewrite bind_eval. unfold lift. by rewrite H.
Qed.

Lemma meta_date_fails host pe e st :
  fromtimestamp_isoformat host (TimeDateStamp (FILE_HEADER pe)) = Raise e →
  meta_date host pe st = (st, Raise e).
Proof.
  intros H. unfold meta_date. rewrite bind_eval. unfold lift at 1. by rewrite H.
Qed.

Lemma meta_rich_fails pe e st :
  parseRich (RICH_HEADER pe) = Raise e → meta_rich pe st = (st, Raise e).
Proof.
  intros H. unfold meta_rich. rewrite bind_eval. unfold lift. by rewrite H.
Qed.

(** A run whose block number [k] raises ends there. *)
Lemma run_ends_at host scanObject pe dump k b e st1 st2 :
  dump_dict pe = Ok dump →
  blocks host scanObject pe dump (KStr "") !! k = Some b →
  reaches host scanObject pe dump k st1 →
  b st1 = (st2, Raise e) →
  _run (parsing (Ok pe) host) scanObject = ends_with st2 e.
Proof.
  intros Hdump Hk Hpre Hb. unfold ends_with.
  rewrite (run_parsed (parsing (Ok pe) host) scanObject pe dump eq_refl Hdump).
  rewrite extract_blocks.
  change (blocks (parsing (Ok pe) host) scanObject pe dump (KStr ""))
    with (blocks host scanObject pe dump (KStr "")).
  rewrite (run_blocks_raise _ _ _ _ _ _ _ Hk Hpre Hb). cbn [fst snd].
  by destruct e.
Qed.

(** When a block raises from every store, and stores nothing then, the
    sequence emits what the blocks before it do. *)
Lemma run_blocks_cut P Q (bs : list (M unit)) k b :
  bs !! k = Some b →
  (∀ st, ∃ e, b st = (st, Raise e)) →
  Forall (emits P Q) (take k bs) →
  emits P Q (run_blocks bs).
Proof.
  intros Hk Hb Hpre st.
  rewrite <- (take_drop_middle bs k b Hk), run_blocks_app, bind_eval.
  destruct (emits_run_blocks P Q _ Hpre st) as (d & Hd & HP & HQ).
  destruct (run_blocks (take k bs) st) as [st1 [[]|e]]; cbn [fst] in Hd; subst st1.
  - rewrite run_blocks_cons, bind_eval.
    destruct (Hb (st_app st d)) as [e ->]. by exists d.
  - by exists d.
Qed.

Lemma run_metadata_emits P Q host scanObject pe dump :
  dump_dict pe = Ok dump →
  emits P Q (run_blocks (blocks host scanObject pe dump (KStr ""))) →
  Forall P (_run (parsing (Ok pe) host) scanObject).1.
Proof.
  intros Hdump H.
  rewrite (run_parsed (parsing (Ok pe) host) scanObject pe dump eq_refl Hdump).
  cbn [fst]. rewrite extract_blocks.
  change (blocks (parsing (Ok pe) host) scanObject pe dump (KStr ""))
    with (blocks host scanObject pe dump (KStr "")).
  destruct (H empty_store) as (d & -> & HP & _). by rewrite st_app_empty_l.
Qed.

Create HintDb keys discriminated.
#[export] Hint Extern 1 (_ ∈ _) => compute_done : keys.

Lemma keys_before_imports host scanObject pe dump :
  Forall (emits (λ kv, kv.1 ∈ ["Sections"; "Exports"; "Imphash"]) (λ _, True))
         (take 3 (blocks host scanObject pe dump (KStr ""))).
Proof.
  cbn [take blocks]. repeat constructor; unfold_blocks; cbv beta zeta;
    eauto 60 with emits keys.
Qed.

Lemma keys_before_date host scanObject pe dump :
  Forall (emits (λ kv, kv.1 ∈ ["Sections"; "Exports"; "Imphash"; "Imports";
                               "Image Characteristics"]) (λ _, True))
         (take 5 (blocks host scanObject pe dump (KStr ""))).
Proof.
  cbn [take blocks]. repeat constructor; unfold_blocks; cbv beta zeta;
    eauto 60 with emits keys.
Qed.

Lemma keys_before_rich host scanObject pe dump :
  Forall (emits (λ kv, kv.1 ≠ "Rich Header") (λ _, True))
         (take 13 (blocks host scanObject pe dump (KStr ""))).
Proof.
  cbn [take blocks]. repeat constructor; unfold_blocks; emits.
Qed.




(** * The RSDS record *)

Lemma byte_eqb_eq a b : byte_eqb a b = true → a = b.
Proof. apply Byte.byte_dec_bl. Qed.

Lemma starts_with_take p s :
  starts_with p s = true → take (length p) s = p ∧ (length p ≤ length s)%nat.
Proof.
  revert s. induction p as [|a p IH]; intros s; [by split; [|cbn; lia]|].
  destruct s as [|b s]; cbn; [done|].
  intros [Hab Hps]%andb_prop. apply byte_eqb_eq in Hab as ->.
  destruct (IH _ Hps) as [-> ?]. split; [done|lia].
Qed.

Lemma dot_run_spec cap s :
  (Rsds_re.dot_run cap s ≤ cap)%nat
  ∧ (Rsds_re.dot_run cap s ≤ length s)%nat
  ∧ Forall (λ b, Rsds_re.dot b = true) (take (Rsds_re.dot_run cap s) s).
Proof.
  revert s. induction cap as [|cap IH]; intros s; [by cbn; split_and!; try lia|].
  destruct s as [|b s]; cbn; [by split_and!; try lia|].
  destruct (Rsds_re.dot b) eqn:Hb; cbn; [|by split_and!; try lia].
  destruct (IH s) as (? & ? & ?). split_and!; [lia..|by constructor].
Qed.

Lemma give_back_spec rest extra k :
  Rsds_re.give_back rest extra = Some k →
  (Rsds_re.lo ≤ k ≤ Rsds_re.lo + extra)%nat
  ∧ starts_with Rsds_re.suffix (drop k rest) = true.
Proof.
  induction extra as [|extra IH]; cbn [Rsds_re.give_back].
  - destruct (starts_with Rsds_re.suffix (drop (Rsds_re.lo + 0) rest)) eqn:H;
      [|done].
    intros Heq. injection Heq as Heq. rewrite <- Heq.
    split; [unfold Rsds_re.lo; lia|done].
  - destruct (starts_with Rsds_re.suffix (drop (Rsds_re.lo + S extra) rest))
      eqn:H.
    + intros Heq. injection Heq as Heq. rewrite <- Heq.
      split; [unfold Rsds_re.lo; lia|done].
    + intros Hk. destruct (IH Hk). split; [lia|done].
Qed.

(** A match is a string of the pattern's shape, at the head of the text. *)
Lemma match_here_sound s len :
  Rsds_re.match_here s = Some len →
  rsds_shaped (take len s) ∧ (len ≤ length s)%nat.
Proof.
  unfold Rsds_re.match_here.
  destruct (starts_with Rsds_re.sig s) eqn:Hsig; [|done].
  destruct (Rsds_re.lo <=? _)%nat eqn:Hlo; [|done].
  apply Nat.leb_le in Hlo.
  destruct (Rsds_re.give_back _ _) as [k|] eqn:Hk; [|done]. cbn.
  intros Heq. injection Heq as Heq.
  assert (len = 4 + (k + 4))%nat as -> by lia. clear Heq.
  apply give_back_spec in Hk as [Hk Hsuf].
  apply starts_with_take in Hsig as [Hsig Hlen].
  apply starts_with_take in Hsuf as [Hsuf Hlen'].
  destruct (dot_run_spec Rsds_re.hi (drop 4 s)) as (Hcap & Hrun & Hdots).
  change (length Rsds_re.sig) with 4%nat in *.
  change (length Rsds_re.suffix) with 4%nat in *.
  rewrite !length_drop in Hlen'. rewrite length_drop in Hrun.
  unfold Rsds_re.lo in Hk, Hlo.
  split; [|lia].
  exists (take k (drop 4 s)). split_and!.
  - rewrite <- (take_drop 4 s) at 1. rewrite Hsig.
    rewrite take_app_ge by (change (length Rsds_re.sig) with 4%nat; lia).
    change (length Rsds_re.sig) with 4%nat.
    replace (4 + (k + 4) - 4)%nat with (k + 4)%nat by lia.
    f_equal.
    rewrite <- (take_drop k (drop 4 s)) at 1.
    rewrite take_app_ge by (rewrite length_take, length_drop; lia).
    rewrite length_take, length_drop.
    replace (k + 4 - k `min` (length s - 4))%nat with 4%nat by lia.
    by rewrite Hsuf.
  - rewrite length_take, length_drop. unfold Rsds_re.lo. lia.
  - rewrite length_take, length_drop. lia.
  - replace k with (k `min` Rsds_re.dot_run Rsds_re.hi (drop 4 s))%nat by lia.
    rewrite <- take_take. by apply Forall_take.
Qed.

Lemma findall_from_sound skip s :
  Forall (λ m, rsds_shaped m ∧ ∃ pre post, s = pre ++ m ++ post)
         (Rsds_re.findall_from skip s).
Proof.
  revert skip. induction s as [|b s IH]; intros skip; [constructor|].
  assert (∀ n, Forall (λ m, rsds_shaped m ∧ ∃ pre post, b :: s = pre ++ m ++ post)
                      (Rsds_re.findall_from n s)) as IH'.
  { intros n. eapply Forall_impl; [apply IH|].
    intros m (? & pre & post & ->). split; [done|]. by exists (b :: pre), post. }
  cbn [Rsds_re.findall_from]. destruct skip as [|n]; [|apply IH'].
  destruct (Rsds_re.match_here (b :: s)) as [len|] eqn:Hm; [|apply IH'].
  constructor; [|apply IH'].
  destruct (match_here_sound _ _ Hm) as [? ?]. split; [done|].
  exists [], (drop len (b :: s)). by rewrite app_nil_l, take_drop.
Qed.

Lemma rsds_shaped_length m : rsds_shaped m → (32 ≤ length m)%nat.
Proof.
  intros (body & -> & ? & _). rewrite !length_app.
  change (length Rsds_re.sig) with 4%nat.
  change (length Rsds_re.suffix) with 4%nat. unfold Rsds_re.lo in *. lia.
Qed.

Lemma unpack_le32_four b0 b1 b2 b3 :
  unpack_le32 [b0; b1; b2; b3] = Ok (le32 b0 b1 b2 b3).
Proof.
  unfold unpack_le32, le32. f_equal. rewrite !Z.shiftl_mul_pow2 by lia. lia.
Qed.

(** The last match of [findall], when there is one, is of the pattern's
    shape and lies in the buffer; [parseRSDS] reads the GUID, the age and the
    path off it and never raises. *)
Lemma parseRSDS_decodes_last_match buffer m :
  last (Rsds_re.findall buffer) = Some m →
  rsds_shaped m
  ∧ (∃ pre post, buffer = pre ++ m ++ post)
  ∧ ∃ b0 b1 b2 b3,
      slice 20 24 m = [b0; b1; b2; b3]
      ∧ parseRSDS buffer
        = Ok (Some {| guid := format_guid m; age := le32 b0 b1 b2 b3;
                      pdb := slice_from 24 m |}).
Proof.
  intros Hlast.
  pose proof (findall_from_sound 0 buffer) as Hall.
  rewrite Forall_forall in Hall.
  destruct (Hall m) as [Hshape Hin].
  { apply last_Some in Hlast as [l' Hl]. unfold Rsds_re.findall in Hl.
    rewrite Hl. apply elem_of_app. right. by left. }
  split_and!; [done..|].
  pose proof (rsds_shaped_length _ Hshape) as Hlen.
  unfold parseRSDS. rewrite Hlast.
  destruct m as [|x m]; [cbn in Hlen; lia|].
  assert (length (slice 20 24 (x :: m)) = 4%nat) as H4.
  { unfold slice. rewrite length_take, length_drop. lia. }
  destruct (slice 20 24 (x :: m)) as [|b0 [|b1 [|b2 [|b3 [|]]]]]; try done.
  exists b0, b1, b2, b3. by rewrite unpack_le32_four.
Qed.

Lemma parseRSDS_no_match buffer :
  Rsds_re.findall buffer = [] → parseRSDS buffer = Ok None.
Proof. intros H. unfold parseRSDS. by rewrite H. Qed.

(** [C3], the failing input.  The debug record of the docstring with the
    age 10 in place of 5: the age is the byte 0x0a and three zero bytes, the
    pattern's [.] does not match 0x0a, and [parseRSDS] finds nothing.  With
    the age 5 the same record is decoded. *)
Theorem RSDS_record_of_age_10_is_not_found :
  parseRSDS (Sample.rsds_record [x0a; x00; x00; x00]) = Ok None
  ∧ parseRSDS (Sample.rsds_record [x05; x00; x00; x00])
    = Ok (Some {| guid := "b4bc7674-d29f-6a49-b56c747c1d41bba5";
                  age := 5;
                  pdb := bytes_of "D:\zcg.pdb" |}).
Proof. split; vm_compute; reflexivity. Qed.

(** * Scan-control exceptions *)

(** The handlers of the export and resource blocks raise them again, and so
    does the outer handler. *)
Lemma meta_exports_reraises pe e st :
  is_cancellation e = true →
  DIRECTORY_ENTRY_EXPORT pe = Raise e →
  meta_exports pe st = (st, Raise e).
Proof.
  intros He Hr. unfold meta_exports, try_except.
  rewrite bind_eval. unfold lift at 1. by rewrite Hr, He.
Qed.

Lemma meta_resources_reraises host pe e st :
  is_cancellation e = true →
  DIRECTORY_ENTRY_RESOURCE pe = Raise e →
  meta_resources host pe st = (st, Raise e).
Proof.
  intros He Hr. unfold meta_resources, try_except.
  rewrite bind_eval. unfold lift at 1. by rewrite Hr, He.
Qed.

Lemma outer_except_reraises e :
  is_cancellation e = true → outer_except (Raise e) = Raise e.
Proof. by destruct e. Qed.

(** The handler of the imphash block is a bare [except:]: whatever
    [pe.get_imphash()] raises, the block ends normally and has stored
    nothing. *)
Lemma meta_imphash_swallows pe e st :
  get_imphash pe = Raise e → meta_imphash pe st = (st, Ok tt).
Proof.
  intros Hr. unfold meta_imphash, try_except.
  rewrite bind_eval. unfold lift at 1. by rewrite Hr.
Qed.

(** [C8], the failing input.  A module timeout raised inside
    [pe.get_imphash()] does not leave [_run]: the run goes on to the imports
    and every later field and returns the child buffers. *)
Theorem timeout_in_get_imphash_is_swallowed :
  is_cancellation GlobalModuleTimeoutError = true
  ∧ get_imphash Sample.timed_out = Raise GlobalModuleTimeoutError
  ∧ (_run (parsing (Ok Sample.timed_out) Sample.host) Sample.scan).2
    = Ok [{| mo_buffer := bytes_of "code"; mo_filename := ".text" |}]
  ∧ (_run (parsing (Ok Sample.timed_out) Sample.host) Sample.scan).1.*1
    = ["Sections"; "Exports"; "Imports"; "Image Characteristics"; "Date";
       "Timestamp"; "Machine Type"; "Image Magic"; "DLL Characteristics";
       "Subsystem"; "Resources"; "Stack Reserve Size"; "Stack Commit Size";
       "Heap Reserve Size"; "Heap Commit Size"; "EntryPoint"; "ImageBase";
       "RSDS"; "Rich Header"].
Proof. split_and!; vm_compute; reflexivity. Qed.

Lemma parseRSDS_decodes_last_match_witness :
  rsds_shaped (bytes_of "RSDS" ++ Sample.guid_bytes ++ [x05; x00; x00; x00]
               ++ bytes_of "D:\zcg.pdb")
  ∧ parseRSDS (Sample.rsds_record [x05; x00; x00; x00])
    = Ok (Some {| guid := "b4bc7674-d29f-6a49-b56c747c1d41bba5";
                  age := le32 x05 x00 x00 x00;
                  pdb := bytes_of "D:\zcg.pdb" |}).
Proof.
  destruct (parseRSDS_decodes_last_match
              (Sample.rsds_record [x05; x00; x00; x00])
              (bytes_of "RSDS" ++ Sample.guid_bytes ++ [x05; x00; x00; x00]
               ++ bytes_of "D:\zcg.pdb"))
    as (Hshape & _ & b0 & b1 & b2 & b3 & Hage & Hparse).
  { vm_compute. reflexivity. }
  split; [exact Hshape|].
  vm_compute in Hage. injection Hage as <- <- <- <-. exact Hparse.
Defined.

(** Two records one after the other make one match, from the first
    signature to the last [.pdb]: the GUID and the age decoded are those of
    the first record. *)
Lemma adjacent_records_make_one_match :
  Rsds_re.findall (Sample.rsds_record [x05; x00; x00; x00]
                   ++ Sample.rsds_record [x07; x00; x00; x00])
  = [ Sample.rsds_record [x05; x00; x00; x00]
      ++ bytes_of "RSDS" ++ Sample.guid_bytes ++ [x07; x00; x00; x00]
      ++ bytes_of "D:\zcg.pdb" ]
  ∧ age <$> default None (returned (parseRSDS
              (Sample.rsds_record [x05; x00; x00; x00]
               ++ Sample.rsds_record [x07; x00; x00; x00])))
    = Some 5.
Proof. split; vm_compute; reflexivity. Qed.

(** * Children of a run that was cut short *)

Lemma section_loop_children scanObject pe secs acc :
  emits (λ _, True)
        (λ child, ∃ section, section ∈ secs ∧ emitted scanObject section
                             ∧ is_child_of pe section child)
        (for_eachM (section_body scanObject pe) secs acc).
Proof.
  apply emits_for_eachM. intros sections section Hin st.
  rewrite section_body_eval.
  destruct (get_data pe _ _) as [secData|e] eqn:Hdata;
    [|exists empty_store; by rewrite st_app_empty_r].
  destruct (make_secInfo section);
    [|exists empty_store; by rewrite st_app_empty_r].
  destruct (decide (emitted scanObject section)) as [Hem|Hem];
    [|exists empty_store; by rewrite st_app_empty_r].
  exists {| metadata := [];
            moduleResult := [{| mo_buffer := secData;
                                mo_filename := section_name section |}] |}.
  unfold st_app. cbn. rewrite app_nil_r. split_and!; [done..|].
  repeat constructor. exists section. by split_and!.
Qed.

Lemma extract_children host scanObject pe dump imageMagic st :
  ∃ d, (extract host scanObject pe dump imageMagic st).1 = st_app st d
       ∧ Forall (λ child,
                   ∃ section, section ∈ default [] (PE_Sections dump)
                              ∧ emitted scanObject section
                              ∧ is_child_of pe section child)
                (moduleResult d).
Proof.
  rewrite extract_after_sections.
  assert (emits (λ _, True)
            (λ child, ∃ section, section ∈ default [] (PE_Sections dump)
                                 ∧ emitted scanObject section
                                 ∧ is_child_of pe section child)
            (meta_sections scanObject pe dump;;
             run_blocks (drop 1 (blocks host scanObject pe dump imageMagic))))
    as H.
  { apply emits_bind.
    - unfold meta_sections. apply emits_bind; [apply section_loop_children|].
      intros sections. by apply emits_addMetadata.
    - intros _. eapply emits_weaken; [| |apply after_sections_emits]; done. }
  destruct (H st) as (d & Hd & _ & HQ). by exists d.
Qed.

(** However the run of a parsed image ends, a list it returns holds only
    children of sections whose MD5 is not the object's hash: also when a
    format error cut the section loop short. *)
Theorem no_child_has_the_object_hash host scanObject pe dump children :
  pefile_PE host (buffer scanObject) = Ok pe →
  dump_dict pe = Ok dump →
  (_run host scanObject).2 = Ok children →
  Forall (λ child,
            ∃ section, section ∈ default [] (PE_Sections dump)
                       ∧ section_md5 section ≠ objectHash scanObject
                       ∧ is_child_of pe section child)
         children.
Proof.
  intros Hpe Hdump Hret.
  apply run_returns in Hret as (st & Hrun & ->).
  rewrite (run_body_parsed _ _ _ _ Hpe Hdump) in Hrun.
  injection Hrun as <- _.
  destruct (extract_children host scanObject pe dump (KStr "") empty_store)
    as (d & -> & Hd).
  by rewrite st_app_empty_l.
Qed.

Lemma no_child_has_the_object_hash_witness :
  Forall (λ child,
            ∃ section, section ∈ [Sample.text; Sample.beyond]
                       ∧ section_md5 section ≠ objectHash Sample.scan
                       ∧ is_child_of Sample.truncated section child)
         [{| mo_buffer := bytes_of "code"; mo_filename := ".text" |}].
Proof.
  apply (no_child_has_the_object_hash
           (parsing (Ok Sample.truncated) Sample.host) Sample.scan
           Sample.truncated
           {| PE_Sections := Some [Sample.text; Sample.beyond];
              Imported_symbols := Imported_symbols Sample.dump;
              Flags := Flags Sample.dump;
              DllCharacteristics := DllCharacteristics Sample.dump |});
    vm_compute; reflexivity.
Defined.

(** A scan-control exception raised while the exports are read leaves
    [_run]: after the section table nothing more is stored. *)
Theorem cancellation_in_exports_leaves_run host scanObject pe dump e :
  pefile_PE host (buffer scanObject) = Ok pe →
  dump_dict pe = Ok dump →
  raised (for_each (section_entry pe) (default [] (PE_Sections dump)) ∅) = None →
  is_cancellation e = true →
  DIRECTORY_ENTRY_EXPORT pe = Raise e →
  (_run host scanObject).2 = Raise e
  ∧ (_run host scanObject).1.*1 = ["Sections"].
Proof.
  intros Hpe Hdump Hsec He Hexp.
  rewrite (run_parsed _ _ _ _ Hpe Hdump). cbn [fst snd].
  rewrite extract_after_sections, bind_eval.
  destruct (meta_sections_eval scanObject pe dump) as (cs & H).
  destruct (for_each _ _ _) as [sections|]; [|done].
  destruct H as [-> _]. cbn [drop blocks].
  rewrite run_blocks_cons, bind_eval, (meta_exports_reraises _ _ _ He Hexp).
  cbn [fst snd]. by rewrite outer_except_reraises.
Qed.

Lemma cancellation_in_exports_leaves_run_witness :
  (_run (parsing (Ok (with_exports (Raise QuitScanException) Sample.pe))
                 Sample.host) Sample.scan).2
  = Raise QuitScanException
  ∧ (_run (parsing (Ok (with_exports (Raise QuitScanException) Sample.pe))
                   Sample.host) Sample.scan).1.*1
    = ["Sections"].
Proof.
  apply (cancellation_in_exports_leaves_run
           (parsing (Ok (with_exports (Raise QuitScanException) Sample.pe))
                    Sample.host)
           Sample.scan
           (with_exports (Raise QuitScanException) Sample.pe)
           Sample.dump QuitScanException); reflexivity.
Defined.

(** * Records the pattern does find *)

Lemma starts_with_app p s : starts_with p (p ++ s) = true.
Proof.
  induction p as [|a p IH]; [done|]. cbn. rewrite IH, andb_true_r.
  by apply Byte.byte_dec_lb.
Qed.

Lemma dot_run_ge cap body rest :
  Forall (λ b, Rsds_re.dot b = true) body →
  (length body ≤ cap)%nat →
  (length body ≤ Rsds_re.dot_run cap (body ++ rest))%nat.
Proof.
  intros Hbody. revert cap.
  induction Hbody as [|b body Hb _ IH]; intros cap Hcap; [cbn; lia|].
  destruct cap as [|cap]; [cbn in Hcap; lia|].
  cbn in *. rewrite Hb. specialize (IH cap). lia.
Qed.

Lemma give_back_complete rest extra k :
  (Rsds_re.lo ≤ k ≤ Rsds_re.lo + extra)%nat →
  starts_with Rsds_re.suffix (drop k rest) = true →
  is_Some (Rsds_re.give_back rest extra).
Proof.
  intros Hk Hsuf. induction extra as [|extra IH]; cbn [Rsds_re.give_back].
  - replace (Rsds_re.lo + 0)%nat with k by lia. by rewrite Hsuf.
  - destruct (starts_with Rsds_re.suffix (drop (Rsds_re.lo + S extra) rest))
      eqn:H; [done|].
    apply IH. destruct (decide (k = Rsds_re.lo + S extra)%nat) as [->|]; [|lia].
    congruence.
Qed.

Lemma match_here_complete m post :
  rsds_shaped m → is_Some (Rsds_re.match_here (m ++ post)).
Proof.
  intros (body & -> & [Hlo Hhi] & Hdots). unfold Rsds_re.match_here.
  rewrite <- !app_assoc, starts_with_app.
  rewrite drop_app_length'; [|done].
  pose proof (dot_run_ge Rsds_re.hi body (Rsds_re.suffix ++ post) Hdots Hhi)
    as Hrun.
  destruct (Rsds_re.lo <=? _)%nat eqn:Hle; [|apply Nat.leb_gt in Hle; lia].
  destruct (give_back_complete (body ++ Rsds_re.suffix ++ post)
              (Rsds_re.dot_run Rsds_re.hi (body ++ Rsds_re.suffix ++ post)
               - Rsds_re.lo) (length body)) as [k ->]; [lia| |done].
  rewrite drop_app_length. apply starts_with_app.
Qed.

Lemma findall_from_complete skip s pre m post :
  s = pre ++ m ++ post → rsds_shaped m → (skip ≤ length pre)%nat →
  Rsds_re.findall_from skip s ≠ [].
Proof.
  intros -> Hm. revert skip.
  induction pre as [|b pre IH]; intros skip Hskip.
  - assert (skip = 0%nat) as -> by (cbn in Hskip; lia).
    destruct (match_here_complete m post Hm) as [len Hlen].
    pose proof (rsds_shaped_length _ Hm).
    rewrite app_nil_l in *. destruct (m ++ post) as [|x l] eqn:Hl.
    { apply (f_equal length) in Hl. rewrite length_app in Hl. cbn in Hl. lia. }
    cbn [Rsds_re.findall_from]. by rewrite Hlen.
  - cbn [app Rsds_re.findall_from]. destruct skip as [|n].
    + destruct (Rsds_re.match_here _); [done|]. apply IH. lia.
    + apply IH. cbn in Hskip. lia.
Qed.

(** A buffer that holds a string of the pattern's shape (the bytes between
    the signature and [.pdb] free of line feeds) gets a result with the
    three keys, decoded from the last match. *)
Theorem parseRSDS_finds_a_record_free_of_line_feeds buffer pre m post :
  buffer = pre ++ m ++ post → rsds_shaped m →
  ∃ m' b0 b1 b2 b3,
    last (Rsds_re.findall buffer) = Some m'
    ∧ rsds_shaped m'
    ∧ slice 20 24 m' = [b0; b1; b2; b3]
    ∧ parseRSDS buffer
      = Ok (Some {| guid := format_guid m'; age := le32 b0 b1 b2 b3;
                    pdb := slice_from 24 m' |}).
Proof.
  intros Hbuf Hm.
  pose proof (findall_from_complete 0 buffer pre m post Hbuf Hm) as Hne.
  destruct (last (Rsds_re.findall buffer)) as [m'|] eqn:Hlast.
  - destruct (parseRSDS_decodes_last_match _ _ Hlast)
      as (? & _ & b0 & b1 & b2 & b3 & ? & ?).
    by exists m', b0, b1, b2, b3.
  - apply last_None in Hlast. destruct Hne; [lia|done].
Qed.

Lemma parseRSDS_finds_a_record_free_of_line_feeds_witness :
  ∃ m' b0 b1 b2 b3,
    last (Rsds_re.findall (bytes_of "MZ" ++ Sample.rsds_record [x05; x00; x00; x00]))
    = Some m'
    ∧ rsds_shaped m'
    ∧ slice 20 24 m' = [b0; b1; b2; b3]
    ∧ parseRSDS (bytes_of "MZ" ++ Sample.rsds_record [x05; x00; x00; x00])
      = Ok (Some {| guid := format_guid m'; age := le32 b0 b1 b2 b3;
                    pdb := slice_from 24 m' |}).
Proof.
  apply (parseRSDS_finds_a_record_free_of_line_feeds
           (bytes_of "MZ" ++ Sample.rsds_record [x05; x00; x00; x00])
           (bytes_of "MZ")
           (bytes_of "RSDS" ++ Sample.guid_bytes ++ [x05; x00; x00; x00]
            ++ bytes_of "D:\zcg.pdb")
           [x00]).
  - reflexivity.
  - exists (Sample.guid_bytes ++ [x05; x00; x00; x00] ++ bytes_of "D:\zcg").
    split_and!;
      [reflexivity
      |apply Nat.leb_le; vm_compute; reflexivity
      |apply Nat.leb_le; vm_compute; reflexivity|].
    repeat constructor.
Defined.

(** * Failures before and during the extraction *)

(** An exception raised by the constructor or by [pe.dump_dict()] reaches the
    outer handler with nothing stored: a format error gives the empty list,
    any other exception leaves [_run]. *)
Theorem failure_before_the_first_field host scanObject e :
  pefile_PE host (buffer scanObject) = Raise e
  ∨ (∃ pe, pefile_PE host (buffer scanObject) = Ok pe
           ∧ dump_dict pe = Raise e) →
  _run host scanObject = abandoned e.
Proof.
  unfold abandoned.
  intros [Hpe|(pe & Hpe & Hdump)].
  - unfold _run, run_body, try_except.
    rewrite bind_eval. unfold lift at 1. rewrite Hpe. by destruct e.
  - rewrite (run_dump_fails _ _ _ _ Hpe Hdump). by destruct e.
Qed.

Lemma failure_before_the_first_field_witness :
  _run (parsing (Raise GlobalScanTimeoutError) Sample.host) Sample.scan
  = ([], Raise GlobalScanTimeoutError).
Proof.
  apply (failure_before_the_first_field
           (parsing (Raise GlobalScanTimeoutError) Sample.host) Sample.scan
           GlobalScanTimeoutError).
  left. reflexivity.
Defined.

(** [_run] never raises a format error: wherever one is raised, the outer
    handler ends the run normally. *)
Theorem format_errors_never_leave_run host scanObject e :
  (_run host scanObject).2 = Raise e → is_PEFormatError e = false.
Proof.
  unfold _run.
  destruct (run_body host scanObject empty_store) as [st [[]|e']] eqn:Hrun;
    [done|].
  cbn. intros [= <-]. revert Hrun. unfold run_body, try_except.
  match goal with |- context [match ?x with _ => _ end] =>
    destruct x as [st' [[]|e'']] end; [done|].
  destruct e''; cbn; by intros [= <- <-].
Qed.

Lemma format_errors_never_leave_run_witness :
  (_run (parsing (Raise ValueError) Sample.host) Sample.scan).2
  = Raise ValueError
  ∧ is_PEFormatError ValueError = false.
Proof.
  split; [reflexivity|].
  apply (format_errors_never_leave_run
           (parsing (Raise ValueError) Sample.host) Sample.scan ValueError).
  reflexivity.
Defined.

Lemma foldl_snoc_fmap {A B} (f : A → B) (xs : list A) (acc : list B) :
  foldl (λ acc x, acc ++ [f x]) acc xs = acc ++ (f <$> xs).
Proof.
  revert acc. induction xs as [|x xs IH]; intros acc; cbn.
  - by rewrite app_nil_r.
  - by rewrite IH, <- app_assoc.
Qed.

(** The export block, when no scan-control exception is raised in it. *)
Lemma meta_exports_eval pe st :
  not_cancelled (DIRECTORY_ENTRY_EXPORT pe) →
  meta_exports pe st
  = (match DIRECTORY_ENTRY_EXPORT pe with
     | Ok symbols =>
         {| metadata := metadata st ++ [("Exports", MExports (exp_name <$> symbols))];
            moduleResult := moduleResult st |}
     | Raise _ => st
     end, Ok tt).
Proof.
  unfold meta_exports, try_except. rewrite bind_eval. unfold lift at 1.
  destruct (DIRECTORY_ENTRY_EXPORT pe) as [symbols|e]; cbn [not_cancelled].
  - intros _. rewrite bind_eval, for_eachM_pure. unfold addMetadata.
    by rewrite foldl_snoc_fmap.
  - by intros ->.
Qed.

Lemma meta_imphash_eval pe st :
  meta_imphash pe st
  = (match get_imphash pe with
     | Ok imphash =>
         {| metadata := metadata st ++ [("Imphash", MStr imphash)];
            moduleResult := moduleResult st |}
     | Raise _ => st
     end, Ok tt).
Proof.
  unfold meta_imphash, try_except. rewrite bind_eval. unfold lift at 1.
  by destruct (get_imphash pe).
Qed.

(** The store after the section table, the exports and the imphash, for an
    image whose section table can be read and whose export block is not
    cancelled. *)
Lemma extract_first_three host scanObject pe dump sections :
  for_each (section_entry pe) (default [] (PE_Sections dump)) ∅ = Ok sections →
  not_cancelled (DIRECTORY_ENTRY_EXPORT pe) →
  ∃ children,
    extract host scanObject pe dump (KStr "") empty_store
    = run_blocks (drop 3 (blocks host scanObject pe dump (KStr "")))
        {| metadata :=
             [("Sections",
               MSections (<["Total" := SecTotal (NumberOfSections (FILE_HEADER pe))]>
                            sections))]
             ++ match DIRECTORY_ENTRY_EXPORT pe with
                | Ok symbols => [("Exports", MExports (exp_name <$> symbols))]
                | Raise _ => []
                end
             ++ match get_imphash pe with
                | Ok imphash => [("Imphash", MStr imphash)]
                | Raise _ => []
                end;
           moduleResult := children |}.
Proof.
  intros Hsec Hexp.
  destruct (meta_sections_eval scanObject pe dump) as (cs & H).
  rewrite Hsec in H. destruct H as [H _]. exists cs.
  rewrite extract_after_sections, bind_eval, H. cbn [drop blocks].
  rewrite run_blocks_cons, bind_eval, (meta_exports_eval _ _ Hexp).
  rewrite run_blocks_cons, bind_eval, meta_imphash_eval.
  f_equal.
  destruct (DIRECTORY_ENTRY_EXPORT pe), (get_imphash pe); cbn;
    by rewrite ?app_nil_r.
Qed.

(** An image without an import directory has no 'Imported symbols' in its
    dump: the subscript raises [KeyError], which leaves [_run] after the
    sections, the exports and the imphash; no later field is stored. *)
Theorem image_without_imports_raises_KeyError host scanObject pe dump :
  pefile_PE host (buffer scanObject) = Ok pe →
  dump_dict pe = Ok dump →
  raised (for_each (section_entry pe) (default [] (PE_Sections dump)) ∅) = None →
  not_cancelled (DIRECTORY_ENTRY_EXPORT pe) →
  Imported_symbols dump = None →
  (_run host scanObject).2 = Raise KeyError
  ∧ (_run host scanObject).1.*1
    = ["Sections"]
      ++ match DIRECTORY_ENTRY_EXPORT pe with Ok _ => ["Exports"] | Raise _ => [] end
      ++ match get_imphash pe with Ok _ => ["Imphash"] | Raise _ => [] end.
Proof.
  intros Hpe Hdump Hsec Hexp Himp.
  destruct (for_each _ _ _) as [sections|] eqn:Hloop; [|done].
  destruct (extract_first_three host scanObject pe dump sections Hloop Hexp)
    as (cs & H).
  rewrite (run_parsed _ _ _ _ Hpe Hdump), H. cbn [drop blocks].
  rewrite run_blocks_cons, bind_eval, (meta_imports_missing _ _ Himp).
  cbn [fst snd outer_except metadata].
  split; [done|].
  destruct (DIRECTORY_ENTRY_EXPORT pe), (get_imphash pe); done.
Qed.

Lemma image_without_imports_raises_KeyError_witness :
  (_run (parsing (Ok Cases.static) Sample.host) Sample.scan).2 = Raise KeyError
  ∧ (_run (parsing (Ok Cases.static) Sample.host) Sample.scan).1.*1
    = ["Sections"; "Imphash"].
Proof.
  apply (image_without_imports_raises_KeyError
           (parsing (Ok Cases.static) Sample.host) Sample.scan
           Cases.static Cases.static_dump); reflexivity.
Defined.

(** * Exports *)

(** The stored list of exports has one element per export symbol, in the
    order of the directory: the name, or [None] for a symbol that has no
    name. *)
Theorem exports_are_stored_in_order host scanObject pe dump symbols :
  pefile_PE host (buffer scanObject) = Ok pe →
  dump_dict pe = Ok dump →
  raised (for_each (section_entry pe) (default [] (PE_Sections dump)) ∅) = None →
  DIRECTORY_ENTRY_EXPORT pe = Ok symbols →
  (_run host scanObject).1 !! 1%nat
  = Some ("Exports", MExports (exp_name <$> symbols)).
Proof.
  intros Hpe Hdump Hsec Hexp.
  destruct (for_each _ _ _) as [sections|] eqn:Hloop; [|done].
  destruct (extract_first_three host scanObject pe dump sections Hloop)
    as (cs & H); [by rewrite Hexp|].
  rewrite run_metadata_cases, Hpe, Hdump, H.
  assert (writer (run_blocks (drop 3 (blocks host scanObject pe dump (KStr "")))))
    as Hw by apply writer_run_blocks, Forall_drop, writer_blocks.
  rewrite (Hw _), Hexp. done.
Qed.

Lemma exports_are_stored_in_order_witness :
  (_run (parsing (Ok Cases.exporting) Sample.host) Sample.scan).1 !! 1%nat
  = Some ("Exports", MExports [Some "DllMain"; None; Some "DllRegisterServer"]).
Proof.
  apply (exports_are_stored_in_order
           (parsing (Ok Cases.exporting) Sample.host) Sample.scan
           Cases.exporting Sample.dump Cases.symbols); reflexivity.
Defined.

(** * The keys of the import dictionary *)

Lemma carries_iff dll imp :
  carries dll imp ↔ imp_DLL imp = Some dll ∧ dll ≠ "".
Proof.
  unfold carries, truthy_str. destruct (imp_DLL imp) as [d|].
  - case_decide as Hd.
    + subst d. split; [done|]. by intros [[= <-] Hne].
    + split; [by intros [= ->]|]. by intros [[= ->] _].
  - split; [done|]. by intros [? _].
Qed.

(** A DLL name is a key of the import dictionary exactly when some
    descriptor carries it, spelled the same; a descriptor without a DLL name
    or with an empty one makes no key. *)
Theorem import_keys_are_the_names_carried symbols dll :
  is_Some (import_loop symbols !! dll)
  ↔ ∃ imp, imp ∈ concat symbols ∧ imp_DLL imp = Some dll ∧ dll ≠ "".
Proof.
  rewrite import_loop_concat, import_fold_lookup, lookup_empty.
  destruct (filter (carries dll) (concat symbols)) as [|imp ds] eqn:Hf.
  - split; [by intros []|]. intros (imp & Hin & Hdll).
    assert (imp ∈ filter (carries dll) (concat symbols)) as Hin'
      by (apply list_elem_of_filter; split; [by apply carries_iff|done]).
    rewrite Hf in Hin'. by apply elem_of_nil in Hin'.
  - split; [intros _|by eauto].
    assert (imp ∈ filter (carries dll) (concat symbols)) as Hin
      by (rewrite Hf; by left).
    apply list_elem_of_filter in Hin as [Hc Hin].
    exists imp. split; [done|by apply carries_iff].
Qed.

(** * Sections of one name *)

Lemma section_fold_last pe secs acc sections name :
  for_each (section_entry pe) secs acc = Ok sections →
  sections !! name
  = match last (filter (λ s, section_name s = name) secs) with
    | Some section => SecInfo <$> returned (make_secInfo section)
    | None => acc !! name
    end.
Proof.
  revert sections. induction secs as [|x secs IH] using rev_ind;
    intros sections Hloop.
  - cbn in Hloop. by injection Hloop as <-.
  - rewrite for_each_app in Hloop.
    destruct (for_each (section_entry pe) secs acc) as [acc1|e] eqn:H1; [|done].
    cbn in Hloop. rewrite section_entry_eval in Hloop.
    destruct (get_data pe _ _); [|done].
    destruct (make_secInfo x) as [info|] eqn:Hinfo; [|done].
    cbn in Hloop. injection Hloop as <-.
    rewrite filter_app, filter_cons, filter_nil.
    destruct (decide (section_name x = name)) as [<-|Hne].
    + by rewrite last_snoc, lookup_insert_eq, Hinfo.
    + rewrite app_nil_r, lookup_insert_ne by done. by apply IH.
Qed.

(** When several sections have one name, the stored dictionary keeps the
    record of the last of them (under every name but 'Total', which holds the
    count). *)
Theorem last_section_of_a_name_is_stored host scanObject pe dump d name :
  pefile_PE host (buffer scanObject) = Ok pe →
  dump_dict pe = Ok dump →
  ("Sections", MSections d) ∈ (_run host scanObject).1 →
  name ≠ "Total" →
  d !! name
  = (section ← last (filter (λ s, section_name s = name)
                            (default [] (PE_Sections dump)));
     SecInfo <$> returned (make_secInfo section)).
Proof.
  intros Hpe Hdump Hin Hname.
  rewrite run_metadata, (run_body_parsed _ _ _ _ Hpe Hdump) in Hin.
  cbn [fst] in Hin.
  destruct (extract_eval host scanObject pe dump) as (cs & H).
  destruct (for_each _ _ _) as [sections|e] eqn:Hloop.
  - destruct H as [(md & H & Hmd) _]. rewrite H in Hin. cbn in Hin.
    apply elem_of_cons in Hin as [[= ->]|Hin];
      [|rewrite Forall_forall in Hmd; by destruct (Hmd _ Hin)].
    rewrite lookup_insert_ne by done.
    rewrite (section_fold_last _ _ _ _ name Hloop), lookup_empty.
    by destruct (last _).
  - rewrite H in Hin. by apply elem_of_nil in Hin.
Qed.

Lemma last_section_of_a_name_is_stored_witness :
  ∃ d, (_run (parsing (Ok Cases.twins) Sample.host) Sample.scan).1 !! 0%nat
       = Some ("Sections", MSections d)
       ∧ d !! ".text" = SecInfo <$> returned (make_secInfo Cases.text_again)
       ∧ (_run (parsing (Ok Cases.twins) Sample.host) Sample.scan).2
         = Ok [ {| mo_buffer := bytes_of "code"; mo_filename := ".text" |};
                {| mo_buffer := bytes_of "resources"; mo_filename := ".text" |} ].
Proof.
  destruct (_run (parsing (Ok Cases.twins) Sample.host) Sample.scan).1
    as [|[k [d| | | | | | | | | |]] md] eqn:Hrun;
    try (vm_compute in Hrun; discriminate).
  assert (k = "Sections") as -> by (vm_compute in Hrun; congruence).
  exists d. split_and!; [done| |vm_compute; reflexivity].
  apply (last_section_of_a_name_is_stored
           (parsing (Ok Cases.twins) Sample.host) Sample.scan
           Cases.twins Cases.twins_dump d ".text"); try reflexivity.
  - rewrite Hrun. by left.
  - discriminate.
Defined.

(** * More on the Rich header *)

Lemma odd_list_pairs (l : list Z) n :
  length l = (2 * n + 1)%nat →
  ∃ ps w, l = words_of_pairs ps ++ [w] ∧ length ps = n.
Proof.
  revert l. induction n as [|n IH]; intros l Hl.
  - destruct l as [|w [|? ?]]; try done. by exists [], w.
  - destruct l as [|a [|b l]]; cbn in Hl; try lia.
    destruct (IH l) as (ps & w & -> & <-); [lia|].
    by exists ((a, b) :: ps), w.
Qed.

Lemma rich_body_pair_app ps tail k p acc :
  ps !! k = Some p →
  rich_body (words_of_pairs ps ++ tail) acc (2 * k)
  = Ok (acc ++ [triple_of_pair p]).
Proof.
  intros Hp. destruct (words_of_pairs_lookup _ _ _ Hp) as [H1 H2].
  unfold rich_body, getitem.
  rewrite (lookup_app_l_Some _ _ _ _ H1). cbn [mbind result_bind].
  by rewrite (lookup_app_l_Some _ _ _ _ H2).
Qed.

Lemma rich_loop_pairs_app ps tail n k acc :
  (k + n ≤ length ps)%nat →
  for_each (rich_body (words_of_pairs ps ++ tail))
           ((λ i, 2 * i)%nat <$> seq k n) acc
  = Ok (acc ++ (triple_of_pair <$> take n (drop k ps))).
Proof.
  revert k acc. induction n as [|n IH]; intros k acc Hn.
  - cbn. by rewrite app_nil_r.
  - destruct (lookup_lt_is_Some_2 ps k) as [p Hp]; [lia|].
    cbn [seq fmap list_fmap for_each].
    rewrite (rich_body_pair_app _ _ _ _ _ Hp). cbn.
    rewrite IH by lia.
    rewrite (drop_S _ _ _ Hp). cbn. by rewrite <- app_assoc.
Qed.

(** A Rich header with an odd number of words: the loop reads one word past
    the end for the last index and [parseRich] raises [IndexError]; no part
    of the result is returned. *)
Theorem parseRich_odd_number_of_words_raises rh n :
  length (values rh) = (2 * n + 1)%nat →
  parseRich (Some rh) = Raise IndexError.
Proof.
  intros Hlen. destruct (odd_list_pairs _ _ Hlen) as (ps & w & Hv & Hps).
  unfold parseRich. rewrite Hlen, Hv.
  unfold range_by_2.
  replace (Nat.div2 (2 * n + 1 + 1)) with (S n)
    by (replace (2 * n + 1 + 1)%nat with (2 * S n)%nat by lia;
        by rewrite Nat.div2_double).
  rewrite seq_S, fmap_app, for_each_app.
  rewrite rich_loop_pairs_app by lia. cbn.
  unfold rich_body, getitem.
  assert (length (words_of_pairs ps) = (n + (n + 0))%nat) as Hw
    by (rewrite words_of_pairs_length; lia).
  assert ((words_of_pairs ps ++ [w]) !! (n + (n + 0))%nat = Some w) as H1.
  { rewrite lookup_app_r by lia. by rewrite Hw, Nat.sub_diag. }
  assert ((words_of_pairs ps ++ [w]) !! (n + (n + 0) + 1)%nat = None) as H2.
  { apply lookup_ge_None_2. rewrite length_app, Hw. cbn. lia. }
  by rewrite H1, H2.
Qed.

Lemma parseRich_odd_number_of_words_raises_witness :
  parseRich (Some {| values := [0x00010002; 3; 0x00020005]; checksum := 99 |})
  = Raise IndexError.
Proof.
  apply (parseRich_odd_number_of_words_raises
           {| values := [0x00010002; 3; 0x00020005]; checksum := 99 |} 1).
  reflexivity.
Defined.

Lemma triple_encodes_word w c :
  0 ≤ w < 2 ^ 32 →
  0 ≤ rich_Id (triple_of_pair (w, c)) < 2 ^ 16
  ∧ 0 ≤ rich_Version (triple_of_pair (w, c)) < 2 ^ 16
  ∧ rich_Id (triple_of_pair (w, c)) * 2 ^ 16
    + rich_Version (triple_of_pair (w, c)) = w
  ∧ rich_Count (triple_of_pair (w, c)) = c.
Proof.
  intros Hw. cbn.
  rewrite Z.shiftr_div_pow2 by lia.
  change 65535 with (Z.ones 16). rewrite Z.land_ones by lia.
  pose proof (Z.div_mod w (2 ^ 16)) as Hdm.
  pose proof (Z.mod_pos_bound w (2 ^ 16)) as Hmod.
  assert (0 ≤ w / 2 ^ 16 < 2 ^ 16) as Hdiv.
  { split; [apply Z.div_pos; lia|].
    apply Z.div_lt_upper_bound; lia. }
  lia.
Qed.

(** The triples of [parseRich] lose nothing: for 32-bit words, the
    identifier and the version are 16-bit values, and writing each triple
    back as the two words [Id * 2^16 + Version] and [Count] gives the words
    of the header. *)
Theorem parseRich_triples_encode_the_words ps ck :
  Forall (λ p, 0 ≤ p.1 < 2 ^ 32) ps →
  ∃ info,
    parseRich (Some {| values := words_of_pairs ps; checksum := ck |})
    = Ok (Some info)
    ∧ Checksum info = ck
    ∧ Forall (λ t, 0 ≤ rich_Id t < 2 ^ 16 ∧ 0 ≤ rich_Version t < 2 ^ 16)
             (Rich_Header_Values info)
    ∧ (Rich_Header_Values info
       ≫= λ t, [rich_Id t * 2 ^ 16 + rich_Version t; rich_Count t])
      = words_of_pairs ps.
Proof.
  intros Hps.
  exists {| Rich_Header_Values := triple_of_pair <$> ps; Checksum := ck |}.
  split_and!; [|done|..].
  - unfold parseRich. cbn [values checksum].
    rewrite words_of_pairs_length, range_by_2_even.
    rewrite rich_loop_pairs by (cbn; lia).
    cbn. by rewrite firstn_all.
  - cbn. induction Hps as [|[w c] ps Hw _ IH]; [constructor|].
    cbn [fmap list_fmap]. constructor; [|done].
    destruct (triple_encodes_word w c Hw) as (? & ? & _). done.
  - cbn [Rich_Header_Values]. unfold words_of_pairs.
    induction Hps as [|[w c] ps Hw _ IH]; [done|].
    cbn [fmap list_fmap mbind list_bind]. cbn [fmap list_fmap mbind list_bind] in IH.
    rewrite IH.
    destruct (triple_encodes_word w c Hw) as (_ & _ & -> & ->). done.
Qed.

Lemma parseRich_triples_encode_the_words_witness :
  ∃ info,
    parseRich (Some {| values := words_of_pairs [(0x00e1520d, 7); (0xffffffff, 1)];
                       checksum := 99 |})
    = Ok (Some info)
    ∧ Checksum info = 99
    ∧ Forall (λ t, 0 ≤ rich_Id t < 2 ^ 16 ∧ 0 ≤ rich_Version t < 2 ^ 16)
             (Rich_Header_Values info)
    ∧ (Rich_Header_Values info
       ≫= λ t, [rich_Id t * 2 ^ 16 + rich_Version t; rich_Count t])
      = words_of_pairs [(0x00e1520d, 7); (0xffffffff, 1)].
Proof.
  apply (parseRich_triples_encode_the_words
           [(0x00e1520d, 7); (0xffffffff, 1)] 99).
  repeat constructor; cbn; lia.
Defined.

(** * What parseRSDS returns *)

Lemma string_length_app (s1 s2 : string) :
  String.length (s1 +:+ s2) = (String.length s1 + String.length s2)%nat.
Proof. induction s1 as [|c s1 IH]; simpl; [done|]. by f_equal. Qed.

Lemma hexlify_length s : String.length (hexlify s) = (2 * length s)%nat.
Proof. induction s as [|b s IH]; cbn; [done|]. rewrite IH. lia. Qed.

Lemma slice_length a b s :
  (b ≤ length s)%nat → length (slice a b s) = (b - a)%nat.
Proof. intros H. unfold slice. rewrite length_take, length_drop. lia. Qed.

Lemma le32_bounds b0 b1 b2 b3 : 0 ≤ le32 b0 b1 b2 b3 < 2 ^ 32.
Proof.
  unfold le32.
  pose proof (Byte.to_N_bounded b0). pose proof (Byte.to_N_bounded b1).
  pose proof (Byte.to_N_bounded b2). pose proof (Byte.to_N_bounded b3).
  lia.
Qed.

Lemma dot_not_line_feed b : Rsds_re.dot b = true → b ≠ "010"%byte.
Proof.
  unfold Rsds_re.dot, byte_eqb. intros H ->. by vm_compute in H.
Qed.

(** [parseRSDS] never raises, and a result with the three keys is well
    formed: the GUID has 35 characters, the age is a 32-bit value, the path
    has 8 to 1008 bytes, ends in [.pdb] and holds no line feed. *)
Theorem parseRSDS_result_is_well_formed buffer :
  (∃ r, parseRSDS buffer = Ok r)
  ∧ ∀ info,
      parseRSDS buffer = Ok (Some info) →
      String.length (guid info) = 35%nat
      ∧ 0 ≤ age info < 2 ^ 32
      ∧ (8 ≤ length (pdb info) ≤ 1008)%nat
      ∧ drop (length (pdb info) - 4) (pdb info) = bytes_of ".pdb"
      ∧ Forall (λ b, b ≠ "010"%byte) (pdb info).
Proof.
  destruct (last (Rsds_re.findall buffer)) as [m|] eqn:Hlast.
  - destruct (parseRSDS_decodes_last_match _ _ Hlast)
      as (Hshape & _ & b0 & b1 & b2 & b3 & Hage & ->).
    split; [by eauto|].
    remember (format_guid m) as g eqn:Hg.
    remember (slice_from 24 m) as p eqn:Hp.
    intros info [= <-]. cbn [guid age pdb]. subst g p.
    pose proof (rsds_shaped_length _ Hshape) as Hlen.
    destruct Hshape as (body & -> & [Hlo Hhi] & Hdots).
    unfold Rsds_re.lo, Rsds_re.hi in *.
    split; [|split; [|split; [|split]]].
    + unfold format_guid.
      rewrite !string_length_app, !hexlify_length, !slice_length by lia.
      done.
    + apply le32_bounds.
    + unfold slice_from. rewrite length_drop. rewrite !length_app in *.
      change (length Rsds_re.sig) with 4%nat in *.
      change (length Rsds_re.suffix) with 4%nat in *. lia.
    + unfold slice_from. rewrite length_drop, drop_drop.
      rewrite app_assoc, drop_app_length'; [done|].
      rewrite !length_app in *.
      change (length Rsds_re.sig) with 4%nat in *.
      change (length Rsds_re.suffix) with 4%nat in *. lia.
    + unfold slice_from. apply Forall_drop, Forall_app. split.
      * repeat constructor; by apply dot_not_line_feed.
      * apply Forall_app. split.
        -- eapply Forall_impl; [exact Hdots|]. apply dot_not_line_feed.
        -- repeat constructor; by apply dot_not_line_feed.
  - unfold parseRSDS. rewrite Hlast. split; [by eauto|]. by intros info [=].
Qed.

(** [parseRSDS] returns the empty dictionary exactly for the buffers that
    hold no string of the pattern's shape; every buffer of fewer than 32
    bytes, the empty one included, is among them. *)
Theorem parseRSDS_is_empty_without_a_record buffer :
  (parseRSDS buffer = Ok None
   ↔ ¬ ∃ pre m post, buffer = pre ++ m ++ post ∧ rsds_shaped m)
  ∧ ((length buffer < 32)%nat → parseRSDS buffer = Ok None).
Proof.
  assert (parseRSDS buffer = Ok None
          ↔ ¬ ∃ pre m post, buffer = pre ++ m ++ post ∧ rsds_shaped m) as Hiff.
  { destruct (last (Rsds_re.findall buffer)) as [m|] eqn:Hlast.
    - destruct (parseRSDS_decodes_last_match _ _ Hlast)
        as (Hshape & (pre & post & Hbuf) & b0 & b1 & b2 & b3 & _ & ->).
      split; [done|]. intros []. by exists pre, m, post.
    - split.
      + intros _ (pre & m & post & Hbuf & Hm).
        apply (findall_from_complete 0 buffer pre m post Hbuf Hm); [lia|].
        apply last_None in Hlast. done.
      + intros _. unfold parseRSDS. by rewrite Hlast. }
  split; [done|].
  intros Hlen. apply Hiff. intros (pre & m & post & -> & Hm).
  apply rsds_shaped_length in Hm. rewrite !length_app in Hlen. lia.
Qed.

(** * The order of the stored keys *)

Section StoresWithin.

Lemma stores_nothing {A} (m : M A) d :
  (∀ st, (m st).1 = st_app st d) → metadata d = [] → stores_within [] m.
Proof. intros H Hd st. exists d. by rewrite H, Hd. Qed.

Lemma stores_ret {A} (a : A) : stores_within [] (mret a : M A).
Proof.
  apply (stores_nothing _ empty_store); [|done].
  intros st. by rewrite st_app_empty_r.
Qed.

Lemma stores_lift {A} (r : result A) : stores_within [] (lift r).
Proof.
  apply (stores_nothing _ empty_store); [|done].
  intros st. by rewrite st_app_empty_r.
Qed.

Lemma stores_raise {A} (e : exn) : stores_within [] (raise e : M A).
Proof. apply stores_lift. Qed.

Lemma stores_moduleResult_append child :
  stores_within [] (moduleResult_append child).
Proof.
  by apply (stores_nothing _ {| metadata := []; moduleResult := [child] |});
    [intros st; unfold moduleResult_append, st_app; cbn; rewrite app_nil_r|].
Qed.

Lemma stores_addMetadata key value :
  key ≠ "Resources" → stores_within [key] (addMetadata key value).
Proof.
  intros Hkey st. exists {| metadata := [(key, value)]; moduleResult := [] |}.
  split.
  - unfold addMetadata, st_app. cbn. by rewrite app_nil_r.
  - unfold others. cbn [metadata]. by rewrite filter_cons, decide_True.
Qed.

Lemma stores_addMetadata_Resources value :
  stores_within [] (addMetadata "Resources" value).
Proof.
  intros st. exists {| metadata := [("Resources", value)]; moduleResult := [] |}.
  split.
  - unfold addMetadata, st_app. cbn. by rewrite app_nil_r.
  - unfold others. cbn [metadata].
    rewrite filter_cons, decide_False; [done|]. by intros [].
Qed.

Lemma stores_weaken {A} ks ks' (m : M A) :
  stores_within ks m → sublist ks ks' → stores_within ks' m.
Proof.
  intros Hm Hks st. destruct (Hm st) as (d & Hd & Hsub).
  exists d. split; [done|]. by etrans.
Qed.

Lemma stores_bind {A B} ks1 ks2 (m : M A) (f : A → M B) :
  stores_within ks1 m → (∀ a, stores_within ks2 (f a)) →
  stores_within (ks1 ++ ks2) (m ≫= f).
Proof.
  intros Hm Hf st. rewrite bind_eval.
  destruct (Hm st) as (d & Hd & Hsub).
  destruct (m st) as [st1 [a|e]]; cbn in Hd; subst st1.
  - destruct (Hf a (st_app st d)) as (d' & -> & Hsub').
    exists (st_app d d'). rewrite st_app_assoc. split; [done|].
    cbn [st_app metadata]. rewrite others_app, fmap_app. by apply sublist_app.
  - exists d. split; [done|]. by apply sublist_inserts_r.
Qed.

Lemma stores_try_except {A} ks1 ks2 (body : M A) (handler : exn → M A) :
  stores_within ks1 body → (∀ e, stores_within ks2 (handler e)) →
  stores_within (ks1 ++ ks2) (try_except body handler).
Proof.
  intros Hb Hh st. unfold try_except.
  destruct (Hb st) as (d & Hd & Hsub).
  destruct (body st) as [st1 [a|e]]; cbn in Hd; subst st1.
  - exists d. split; [done|]. by apply sublist_inserts_r.
  - destruct (Hh e (st_app st d)) as (d' & -> & Hsub').
    exists (st_app d d'). rewrite st_app_assoc. split; [done|].
    cbn [st_app metadata]. rewrite others_app, fmap_app. by apply sublist_app.
Qed.

Lemma stores_for_eachM {A S} (body : S → A → M S) (xs : list A) (acc : S) :
  (∀ acc x, stores_within [] (body acc x)) →
  stores_within [] (for_eachM body xs acc).
Proof.
  intros Hb. revert acc.
  induction xs as [|x xs IH]; intros acc; cbn [for_eachM].
  - apply stores_ret.
  - apply (stores_bind [] []); auto.
Qed.

Lemma stores_bind_nil {A B} (m : M A) (f : A → M B) :
  stores_within [] m → (∀ a, stores_within [] (f a)) →
  stores_within [] (m ≫= f).
Proof. apply (stores_bind [] []). Qed.

End StoresWithin.

Create HintDb stores discriminated.
#[export] Hint Resolve stores_ret stores_lift stores_raise
  stores_moduleResult_append stores_addMetadata_Resources : stores.
#[export] Hint Extern 3 (stores_within _ (addMetadata _ _)) =>
  apply stores_addMetadata; discriminate : stores.
#[export] Hint Extern 1 (stores_within [] (_ ≫= _)) =>
  apply stores_bind_nil; [|intros ?] : stores.
#[export] Hint Extern 2 (stores_within _ (_ ≫= _)) =>
  eapply stores_bind; [|intros ?] : stores.
#[export] Hint Extern 2 (stores_within _ (try_except _ _)) =>
  eapply stores_try_except; [|intros ?] : stores.
#[export] Hint Extern 2 (stores_within _ (for_eachM _ _ _)) =>
  apply stores_for_eachM; intros ? ? : stores.
#[export] Hint Extern 5 (stores_within _ (match ?e with _ => _ end)) =>
  destruct e : stores.

Lemma run_body_stores_in_order host scanObject :
  stores_within key_order (run_body host scanObject).
Proof.
  eapply stores_weaken.
  - unfold run_body. unfold_blocks. cbv beta zeta. eauto 80 with stores.
  - cbn. reflexivity.
Qed.

(** The keys [_run] stores, 'Resources' apart, come in the order of the
    source and each at most once, however the run ends. *)
Theorem keys_are_stored_once_and_in_order host scanObject :
  sublist (others "Resources" (_run host scanObject).1).*1 key_order
  ∧ NoDup (others "Resources" (_run host scanObject).1).*1.
Proof.
  assert (sublist (others "Resources" (_run host scanObject).1).*1 key_order)
    as Hsub.
  { rewrite run_metadata.
    destruct (run_body_stores_in_order host scanObject empty_store)
      as (d & -> & Hd).
    by rewrite st_app_empty_l. }
  split; [done|].
  refine (sublist_NoDup _ key_order _ Hsub).
  unfold key_order. compute_done.
Qed.

(** * Resources *)

Lemma for_eachM_app {A S} (body : S → A → M S) (xs ys : list A) (acc : S) st :
  for_eachM body (xs ++ ys) acc st
  = (for_eachM body xs acc ≫= for_eachM body ys) st.
Proof.
  revert acc st. induction xs as [|x xs IH]; intros acc st; [done|].
  cbn [app for_eachM]. rewrite !bind_eval.
  destruct (body acc x st) as [st1 [acc1|e]]; [|done].
  by rewrite IH, bind_eval.
Qed.

(** An entry of the resource directory on which the walk fails ends the
    walk: what was stored till then is kept, the entries after it are not
    visited, and unless the exception is a scan-control one the block
    returns normally. *)
Theorem resources_before_a_failure_are_kept
    host pe good bad rest e st st1 st2 :
  DIRECTORY_ENTRY_RESOURCE pe = Ok (good ++ bad :: rest) →
  for_eachM (λ _ resource, resource_body host pe resource) good tt st
  = (st1, Ok tt) →
  resource_body host pe bad st1 = (st2, Raise e) →
  meta_resources host pe st
  = (st2, if is_cancellation e then Raise e else Ok tt).
Proof.
  intros Hres Hgood Hbad. unfold meta_resources, try_except.
  rewrite bind_eval. unfold lift at 1. rewrite Hres.
  rewrite for_eachM_app, bind_eval, Hgood. cbn [for_eachM].
  rewrite bind_eval, Hbad. by destruct (is_cancellation e).
Qed.

Lemma resources_before_a_failure_are_kept_witness :
  meta_resources Sample.host Cases.half_walked empty_store
  = ((meta_resources Sample.host Sample.pe empty_store).1, Ok tt).
Proof.
  apply (resources_before_a_failure_are_kept
           Sample.host Cases.half_walked Sample.resources Cases.bad_entry
           Sample.resources AttributeError empty_store
           (meta_resources Sample.host Sample.pe empty_store).1
           (meta_resources Sample.host Sample.pe empty_store).1);
    vm_compute; reflexivity.
Defined.

Lemma emits_bind_lift {A B} P Q (r : result A) (f : A → M B) :
  (∀ a, r = Ok a → emits P Q (f a)) → emits P Q (lift r ≫= f).
Proof.
  intros Hf st. rewrite bind_eval. unfold lift.
  destruct r as [a|e].
  - by apply Hf.
  - exists empty_store. by rewrite st_app_empty_r.
Qed.

Lemma meta_resources_hashes host pe :
  emits (λ kv, ∀ r, kv = ("Resources", MResource r) → hashes_its_bytes host pe r)
        (λ _, True) (meta_resources host pe).
Proof.
  unfold meta_resources. apply emits_try_except; [|intros e; emits].
  apply emits_bind; [emits|]. intros resources.
  apply emits_for_eachM. intros _ resource _.
  unfold resource_body. cbv zeta. apply emits_bind; [emits|]. intros entries.
  apply emits_for_eachM. intros _ entry _.
  unfold resource_entry. apply emits_bind; [emits|]. intros e_entries.
  apply emits_for_eachM. intros _ e_entry _.
  unfold resource_leaf. apply emits_bind; [emits|]. intros d. cbv zeta.
  apply emits_bind_lift. intros raw_data Hraw.
  apply emits_addMetadata. intros r [= <-]. by exists raw_data.
Qed.

Lemma run_body_hashes host scanObject pe dump :
  emits (λ kv, ∀ r, kv = ("Resources", MResource r) → hashes_its_bytes host pe r)
        (λ _, True) (extract host scanObject pe dump (KStr "")).
Proof.
  intros st. rewrite extract_blocks. revert st.
  apply emits_run_blocks. unfold blocks.
  repeat constructor; try apply meta_resources_hashes; unfold_blocks; emits.
Qed.

(** Every resource record [_run] stores carries the three digests of one
    and the same byte string: what [pe.get_data] returned for the record's
    offset and size. *)
Theorem resource_records_hash_the_bytes_read host scanObject pe r :
  pefile_PE host (buffer scanObject) = Ok pe →
  ("Resources", MResource r) ∈ (_run host scanObject).1 →
  hashes_its_bytes host pe r.
Proof.
  intros Hpe Hin.
  destruct (run_added_parsed _ _ _ Hin) as (pe' & dump & Hpe' & Hdump).
  rewrite Hpe in Hpe'. injection Hpe' as <-.
  rewrite run_metadata, (run_body_parsed _ _ _ _ Hpe Hdump) in Hin.
  cbn [fst] in Hin.
  destruct (run_body_hashes host scanObject pe dump empty_store)
    as (d & Hd & HP & _).
  rewrite Hd, st_app_empty_l in Hin. rewrite Forall_forall in HP.
  by apply (HP _ Hin).
Qed.

Lemma resource_records_hash_the_bytes_read_witness :
  hashes_its_bytes Sample.host Sample.pe
    {| res_Type := "RT_VERSION"; res_Id := Some 1033;
       res_Name := "IMAGE_RESOURCE_DATA_ENTRY"; res_Offset := 15;
       res_Size := 9;
       res_SHA256 := "sha256:7265736f7572636573";
       res_SHA1 := "sha1:7265736f7572636573";
       res_MD5 := "md5:7265736f7572636573";
       res_Language := "LANG_ENGLISH";
       res_Sub_Language := "SUBLANG_ENGLISH_US" |}.
Proof.
  apply (resource_records_hash_the_bytes_read Sample.host Sample.scan).
  - reflexivity.
  - apply list_elem_of_lookup. exists 11%nat. vm_compute. reflexivity.
Defined.

(** * Section names *)

Lemma is_nul_zero : is_nul Ascii.zero = true.
Proof. reflexivity. Qed.

Lemma is_nul_inv c : is_nul c = true → c = Ascii.zero.
Proof. apply Ascii.eqb_eq. Qed.

Lemma lstrip_nul_nuls a s : lstrip_nul (nuls a +:+ s) = lstrip_nul s.
Proof. induction a as [|a IH]; [done|]. simpl. exact IH. Qed.

Lemma lstrip_nul_only b : lstrip_nul (nuls b) = EmptyString.
Proof. induction b as [|b IH]; [done|]. simpl. exact IH. Qed.

Lemma lstrip_nul_clean s :
  first_ascii s ≠ Some Ascii.zero → lstrip_nul s = s.
Proof.
  destruct s as [|c s]; [done|]. simpl. intros Hc.
  destruct (is_nul c) eqn:Hn; [|done].
  apply is_nul_inv in Hn as ->. by destruct Hc.
Qed.

Lemma rstrip_nul_nuls b : rstrip_nul (nuls b) = EmptyString.
Proof. induction b as [|b IH]; [done|]. simpl. by rewrite IH. Qed.

Lemma rstrip_nul_clean s b :
  last_ascii s ≠ Some Ascii.zero → rstrip_nul (s +:+ nuls b) = s.
Proof.
  induction s as [|c s IH]; intros Hlast; [apply rstrip_nul_nuls|].
  simpl. destruct s as [|c' s'].
  - rewrite IH by done.
    destruct (is_nul c) eqn:Hn; [|done].
    apply is_nul_inv in Hn as ->. by destruct Hlast.
  - rewrite IH by done. done.
Qed.

(** The name of a section is its name field without the NUL characters at
    either end: padding in front is removed as well as padding behind, and
    NUL characters inside the name stay. *)
Theorem section_name_strips_both_ends section a b name :
  sec_Name section = Some (nuls a +:+ name +:+ nuls b) →
  first_ascii name ≠ Some Ascii.zero →
  last_ascii name ≠ Some Ascii.zero →
  section_name section = name.
Proof.
  intros Hname Hfirst Hlast. unfold section_name, strip_nul.
  rewrite Hname. cbn [from_option id]. rewrite lstrip_nul_nuls.
  destruct name as [|c name].
  - change ("" +:+ nuls b) with (nuls b). by rewrite lstrip_nul_only.
  - rewrite lstrip_nul_clean; [by apply rstrip_nul_clean|].
    simpl. done.
Qed.

Lemma section_name_strips_both_ends_witness :
  section_name
    {| sec_Name := Some (nuls 2 +:+ ("UPX" +:+ nuls 1 +:+ "0") +:+ nuls 3);
       sec_PointerToRawData := None; sec_VirtualAddress := None;
       sec_Misc_VirtualSize := None; sec_SizeOfRawData := None;
       sec_MD5 := None; sec_SHA1 := None; sec_SHA256 := None;
       sec_Entropy := None; sec_Flags := None; sec_Structure := None |}
  = "UPX" +:+ nuls 1 +:+ "0".
Proof.
  apply (section_name_strips_both_ends _ 2 3); [reflexivity|simpl; discriminate..].
Defined.

(** * An image on which nothing fails *)

Lemma run_blocks_all_return (bs : list (M unit)) st :
  Forall writer bs → Forall returns bs →
  ∃ d, run_blocks bs st = (st_app st d, Ok tt)
       ∧ (others "Resources" (metadata d)).*1 = concat (keys_of <$> bs).
Proof.
  intros Hw Hr. revert st.
  induction bs as [|b bs IH]; intros st.
  - exists empty_store. by rewrite st_app_empty_r.
  - apply Forall_cons in Hw as [Hb Hw]. apply Forall_cons in Hr as [Hrb Hr].
    rewrite run_blocks_cons, bind_eval, (Hb st), Hrb.
    destruct (IH Hw Hr (st_app st (b empty_store).1)) as (d & -> & Hd).
    exists (st_app (b empty_store).1 d). rewrite st_app_assoc.
    split; [done|]. cbn [st_app metadata fmap list_fmap concat].
    by rewrite others_app, fmap_app, Hd.
Qed.

Lemma parseRSDS_returns buffer : ∃ r, parseRSDS buffer = Ok r.
Proof.
  destruct (last (Rsds_re.findall buffer)) as [m|] eqn:Hlast.
  - destruct (parseRSDS_decodes_last_match _ _ Hlast)
      as (_ & _ & b0 & b1 & b2 & b3 & _ & ->). eauto.
  - unfold parseRSDS. rewrite Hlast. eauto.
Qed.

Section Healthy.

Variable host : Host.
Variable scanObject : ScanObject.
Variable pe : PE.
Variable dump : DumpDict.

Hypothesis sections_read :
  raised (for_each (section_entry pe) (default [] (PE_Sections dump)) ∅) = None.
Hypothesis exports_read : raised (DIRECTORY_ENTRY_EXPORT pe) = None.
Hypothesis imphash_computed : raised (get_imphash pe) = None.
Hypothesis imports_present : is_Some (Imported_symbols dump).
Hypothesis date_formatted :
  raised (fromtimestamp_isoformat host (TimeDateStamp (FILE_HEADER pe))) = None.
Hypothesis resources_walked : returns (meta_resources host pe).
Hypothesis rich_even : raised (parseRich (RICH_HEADER pe)) = None.

Lemma healthy_blocks_return :
  Forall returns (blocks host scanObject pe dump (KStr "")).
Proof using All.
  unfold blocks, returns. repeat constructor; try done.
  - destruct (meta_sections_eval scanObject pe dump) as (cs & H).
    destruct (for_each _ _ _); [|done]. destruct H as [-> _]. done.
  - apply meta_exports_returns. by destruct (DIRECTORY_ENTRY_EXPORT pe).
  - apply meta_imphash_returns.
  - unfold meta_imports. rewrite bind_eval. unfold lift.
    by destruct imports_present as [symbols ->].
  - unfold meta_date. rewrite bind_eval. unfold lift at 1.
    by destruct (fromtimestamp_isoformat host _).
  - unfold meta_rsds. rewrite bind_eval. unfold lift.
    by destruct (parseRSDS_returns (buffer scanObject)) as [r ->].
  - unfold meta_rich. rewrite bind_eval. unfold lift.
    by destruct (parseRich (RICH_HEADER pe)).
Qed.

Lemma healthy_blocks_keys :
  concat (keys_of <$> blocks host scanObject pe dump (KStr "")) = key_order.
Proof using All.
  unfold blocks, keys_of. cbn [fmap list_fmap concat].
  destruct (meta_sections_eval scanObject pe dump) as (cs & Hsec).
  destruct (for_each _ _ _); [|done]. destruct Hsec as [-> _].
  rewrite meta_exports_eval by (by destruct (DIRECTORY_ENTRY_EXPORT pe)).
  rewrite meta_imphash_eval.
  destruct (single_key_block _ _ (meta_resources_emits host pe)) as [-> _].
  unfold meta_imports, meta_date, meta_rsds, meta_rich.
  rewrite !bind_eval. unfold lift.
  destruct imports_present as [symbols ->].
  destruct (DIRECTORY_ENTRY_EXPORT pe); [|done].
  destruct (get_imphash pe); [|done].
  destruct (fromtimestamp_isoformat host _); [|done].
  destruct (parseRSDS_returns (buffer scanObject)) as [r ->].
  destruct (parseRich (RICH_HEADER pe)); [|done].
  done.
Qed.

End Healthy.

(** When no library call fails on a parsed image (and the Rich header has an
    even number of words), [_run] returns and has stored every key of the
    source once, in the order of the source, besides the resource records. *)
Theorem image_without_failures_gets_every_field host scanObject pe dump :
  pefile_PE host (buffer scanObject) = Ok pe →
  dump_dict pe = Ok dump →
  raised (for_each (section_entry pe) (default [] (PE_Sections dump)) ∅) = None →
  raised (DIRECTORY_ENTRY_EXPORT pe) = None →
  raised (get_imphash pe) = None →
  is_Some (Imported_symbols dump) →
  raised (fromtimestamp_isoformat host (TimeDateStamp (FILE_HEADER pe))) = None →
  returns (meta_resources host pe) →
  raised (parseRich (RICH_HEADER pe)) = None →
  (∃ children, (_run host scanObject).2 = Ok children)
  ∧ (others "Resources" (_run host scanObject).1).*1 = key_order.
Proof.
  intros Hpe Hdump H1 H2 H3 H4 H5 H6 H7.
  rewrite (run_parsed _ _ _ _ Hpe Hdump), extract_blocks.
  destruct (run_blocks_all_return
              (blocks host scanObject pe dump (KStr "")) empty_store
              (writer_blocks host scanObject pe dump (KStr ""))
              (healthy_blocks_return host scanObject pe dump H1 H2 H3 H4 H5 H6 H7))
    as (d & -> & Hd).
  rewrite st_app_empty_l. cbn [fst snd outer_except].
  split; [by eauto|].
  rewrite Hd. by apply healthy_blocks_keys.
Qed.

Lemma image_without_failures_gets_every_field_witness :
  (∃ children, (_run Sample.host Sample.scan).2 = Ok children)
  ∧ (others "Resources" (_run Sample.host Sample.scan).1).*1 = key_order.
Proof.
  apply (image_without_failures_gets_every_field
           Sample.host Sample.scan Sample.pe Sample.dump);
    try reflexivity.
  by eexists.
Defined.
